(** * lazydodo-bot: duration formatting, reminder scheduling, presence
    reconciliation and status publication

    A shallow embedding of [internal/utils/duration.go] and
    [internal/discord/discord.go], with the properties of the design
    document stated over it.

    Conventions.  An instant ([time.Time]) is an integer number of
    nanoseconds on the time line, a [time.Duration] is a signed 64-bit
    count of nanoseconds held in [Z], Go maps are [gmap]s and every
    [range] over a map takes the order in which the runtime yields the
    entries as an input. *)

From Stdlib Require Import ZArith Lia DecimalString.
From stdpp Require Import gmap strings list sorting.

Local Open Scope Z_scope.

(** ** Signed 64-bit integers *)

Module Int64.

Definition min_value : Z := - 2 ^ 63.
Definition max_value : Z := 2 ^ 63 - 1.

Definition in_range (z : Z) : Prop := min_value <= z <= max_value.

(** Two's-complement wrap-around of an integer result. *)
Definition wrap (z : Z) : Z := (z + 2 ^ 63) mod 2 ^ 64 - 2 ^ 63.

(** Unary minus on an int64: [-x]. *)
Definition neg (x : Z) : Z := wrap (- x).

(** [x - y] on int64. *)
Definition sub (x y : Z) : Z := wrap (x - y).

(** [x + y] on int64. *)
Definition add (x y : Z) : Z := wrap (x + y).

(** [x * y] on int64. *)
Definition mul (x y : Z) : Z := wrap (x * y).

End Int64.

(** ** IEEE 754 binary64, as far as [Duration.Hours] and
    [Duration.Minutes] use it

    Every finite binary64 number is an integer multiple of [2^-1074], so a
    finite float is held as that integer.  Sums and quotients are computed
    exactly and then rounded to the nearest float, ties to even: the
    behaviour of Go's [+] and [/] on [float64].  Overflow to an infinity
    cannot arise from the operands the formatter builds (they stay below
    [2^63]) and is left out. *)

Module Float64.

(** The float [1.0]. *)
Definition one : Z := 2 ^ 1074.

(** Nearest integer to [n / d], a tie going to the even neighbour
    ([0 <= n], [0 < d]). *)
Definition rne_div (n d : Z) : Z :=
  let q := n / d in
  let r := n mod d in
  if 2 * r <? d then q
  else if d <? 2 * r then q + 1
  else if Z.even q then q else q + 1.

(** The float nearest to the rational [a / b] ([0 <= a], [0 < b]), in
    units of [2^-1074].  The significand has 53 bits: [e] is the weight
    of its last bit, [0] in the subnormal range. *)
Definition round_pos (a b : Z) : Z :=
  let e := Z.max 0 (Z.log2 (a / b) - 52) in
  rne_div a (b * 2 ^ e) * 2 ^ e.

Definition round (a b : Z) : Z :=
  if a <? 0 then - round_pos (- a) b else round_pos a b.

(** [float64(z)] for an integer [z]. *)
Definition of_int (z : Z) : Z := round (z * one) 1.

(** [x + y]. *)
Definition add (x y : Z) : Z := round (x + y) 1.

(** [x / y] for a divisor other than zero. *)
Definition div (x y : Z) : Z :=
  if y <? 0 then round (- x * one) (- y) else round (x * one) y.

(** [int(x)]: the conversion truncates towards zero. *)
Definition to_int (x : Z) : Z := Z.quot x one.

(** The largest value of [float64(nsec) / float64(U)] for an integer
    [nsec] below [U]: the float nearest to [(U - 1) / U]. *)
Definition top_fraction (U : Z) : Z := round_pos ((U - 1) * one * one) (U * one).

(** The same when [nsec] is a multiple of [g]: the float nearest to
    [(U - g) / U]. *)
Definition top_fraction_step (U g : Z) : Z :=
  round_pos ((U - g) * one * one) (U * one).

End Float64.

(** ** [time.Duration] and [time.Time]

    The operations of Go's package [time] that the bot calls, after the
    source of that package. *)

Module Time.

Definition Nanosecond : Z := 1.
Definition Microsecond : Z := 1000 * Nanosecond.
Definition Second : Z := 1000000000.
Definition Minute : Z := 60 * Second.
Definition Hour : Z := 60 * Minute.

Definition minDuration : Z := Int64.min_value.
Definition maxDuration : Z := Int64.max_value.

(** [d.Minutes()], that is [float64(min) + float64(nsec)/(60*1e9)]: the
    whole minutes and the fraction are converted separately and added as
    floats. *)
Definition Minutes (d : Z) : Z :=
  let min := Z.quot d Minute in
  let nsec := Z.rem d Minute in
  Float64.add (Float64.of_int min)
              (Float64.div (Float64.of_int nsec) (Float64.of_int (60 * 1000000000))).

(** [d.Hours()], that is [float64(hour) + float64(nsec)/(60*60*1e9)]. *)
Definition Hours (d : Z) : Z :=
  let hour := Z.quot d Hour in
  let nsec := Z.rem d Hour in
  Float64.add (Float64.of_int hour)
              (Float64.div (Float64.of_int nsec) (Float64.of_int (60 * 60 * 1000000000))).

(** [t.Add(d)]. *)
Definition Add (t d : Z) : Z := t + d.

(** [t.Before(u)] and [t.After(u)]. *)
Definition Before (t u : Z) : bool := t <? u.
Definition After (t u : Z) : bool := u <? t.

(** [t.Sub(u)]: the difference, saturated to the range of a Duration. *)
Definition Sub (t u : Z) : Z :=
  if t - u <? minDuration then minDuration
  else if maxDuration <? t - u then maxDuration
  else t - u.

(** [lessThanHalf(x, y)]: [x + x < y] computed on uint64. *)
Definition lessThanHalf (x y : Z) : bool :=
  ((x mod 2 ^ 64 + x mod 2 ^ 64) mod 2 ^ 64) <? (y mod 2 ^ 64).

(** [d.Round(m)]: the multiple of [m] nearest to [d], halfway values
    away from zero. *)
Definition Round (d m : Z) : Z :=
  if m <=? 0 then d
  else
    let r := Z.rem d m in
    if d <? 0 then
      let r := Int64.neg r in
      if lessThanHalf r m then Int64.add d r
      else
        let d1 := Int64.add (Int64.sub d m) r in
        if d1 <? d then d1 else minDuration
    else
      if lessThanHalf r m then Int64.sub d r
      else
        let d1 := Int64.sub (Int64.add d m) r in
        if d <? d1 then d1 else maxDuration.

End Time.

(** ** [internal/utils/duration.go] *)

Module Utils.

(** [type Language int] with [English = iota] and [German]. *)
Definition English : Z := 0.
Definition German : Z := 1.

Record unit := { singular : string; plural : string }.

Definition units : gmap Z (gmap string unit) :=
  <[English := <["day" := {| singular := "day"; plural := "days" |}]>
               (<["hour" := {| singular := "hour"; plural := "hours" |}]>
               (<["minute" := {| singular := "minute"; plural := "minutes" |}]> ∅))]>
  (<[German := <["day" := {| singular := "Tag"; plural := "Tage" |}]>
               (<["hour" := {| singular := "Stunde"; plural := "Stunden" |}]>
               (<["minute" := {| singular := "Minute"; plural := "Minuten" |}]> ∅))]> ∅).

(** Indexing a Go map: the zero value when the key is missing. *)
Definition index (u : gmap string unit) (k : string) : unit :=
  default {| singular := ""; plural := "" |} (u !! k).

Definition pluralize (count : Z) (u : unit) : string :=
  if count =? 1 then singular u else plural u.

(** The verb [%d]. *)
Definition itoa (z : Z) : string := NilZero.string_of_int (Z.to_int z).

(** [fmt.Sprintf("%d %s", n, s)]. *)
Definition Sprintf_d_s (n : Z) (s : string) : string :=
  itoa n +:+ " " +:+ s.

(** [fmt.Sprintf("%d %s %d %s", n1, s1, n2, s2)]. *)
Definition Sprintf_d_s_d_s (n1 : Z) (s1 : string) (n2 : Z) (s2 : string) : string :=
  itoa n1 +:+ " " +:+ s1 +:+ " " +:+ itoa n2 +:+ " " +:+ s2.

(** The [switch] of [FormatDuration], once the totals are known. *)
Definition render (u : gmap string unit) (totalMinutes totalHours : Z) : string :=
  let days := Z.quot totalHours 24 in
  let hours := Z.rem totalHours 24 in
  let minutes := Z.rem totalMinutes 60 in
  if 1 <=? days then
    if hours =? 0 then Sprintf_d_s days (pluralize days (index u "day"))
    else Sprintf_d_s_d_s days (pluralize days (index u "day"))
                         hours (pluralize hours (index u "hour"))
  else if 1 <=? totalHours then
    if minutes =? 0 then Sprintf_d_s totalHours (pluralize totalHours (index u "hour"))
    else Sprintf_d_s_d_s totalHours (pluralize totalHours (index u "hour"))
                         minutes (pluralize minutes (index u "minute"))
  else Sprintf_d_s totalMinutes (pluralize totalMinutes (index u "minute")).

Definition FormatDuration (d : Z) (lang : Z) : string :=
  if d <? 0 then ""
  else
    let u := match units !! lang with
             | Some u => u
             | None => default ∅ (units !! English)
             end in
    let totalMinutes := Float64.to_int (Time.Minutes d) in
    let totalHours := Float64.to_int (Time.Hours d) in
    render u totalMinutes totalHours.

Definition Day : Z := 24 * Time.Hour.

(** The rule of the design document, written over the span itself: the
    whole days, the hours left over after them and the minutes left over
    after the whole hours. *)
Definition FormatDuration_rule (d : Z) (lang : Z) : string :=
  if d <? 0 then ""
  else
    let u := match units !! lang with
             | Some u => u
             | None => default ∅ (units !! English)
             end in
    let days := d / Day in
    let leftoverHours := (d mod Day) / Time.Hour in
    let leftoverMinutes := (d mod Time.Hour) / Time.Minute in
    if Day <=? d then
      if leftoverHours =? 0 then
        itoa days +:+ " " +:+ pluralize days (index u "day")
      else
        itoa days +:+ " " +:+ pluralize days (index u "day") +:+ " " +:+
        itoa leftoverHours +:+ " " +:+ pluralize leftoverHours (index u "hour")
    else if Time.Hour <=? d then
      let hours := d / Time.Hour in
      if leftoverMinutes =? 0 then
        itoa hours +:+ " " +:+ pluralize hours (index u "hour")
      else
        itoa hours +:+ " " +:+ pluralize hours (index u "hour") +:+ " " +:+
        itoa leftoverMinutes +:+ " " +:+ pluralize leftoverMinutes (index u "minute")
    else
      let minutes := d / Time.Minute in
      itoa minutes +:+ " " +:+ pluralize minutes (index u "minute").

End Utils.

(** ** [internal/model] and [internal/config] *)

Module Model.

(** Modelled from the spec: the declaration of [model.ServerInfo] is not
    among the sources; its three fields are the ones [discord.go] reads
    and the design document lists for a server snapshot -- the name, the
    ordered list of player identities and the reachability flag. *)
Record ServerInfo := {
  Name : string;
  Players : list string;
  Reachable : bool
}.

End Model.

Module Config.

Record ConfigEventer := {
  Enabled : bool;
  ReminderOffsets : list Z     (* []time.Duration *)
}.

Record ConfigDiscord := {
  ChannelIDStatus : string;
  ChannelIDJoinLeave : string;
  ChannelIDJoinEvents : string;
  BotToken : string;
  CachePath : string;
  ShowJoinLeave : bool;
  PinPlayerList : bool;
  Eventer : ConfigEventer
}.

End Config.

(** ** [internal/discord/discord.go] *)

Module Discord.
Import Model Config.

(** *** Strings *)

Definition LF : string := String (Ascii.ascii_of_nat 10) EmptyString.

(** [strings.Contains(s, substr)]. *)
Fixpoint Contains (s substr : string) : bool :=
  String.prefix substr s ||
  match s with
  | EmptyString => false
  | String _ s' => Contains s' substr
  end.

(** [strings.Join(elems, sep)]. *)
Fixpoint Join (elems : list string) (sep : string) : string :=
  match elems with
  | [] => ""
  | [e] => e
  | e :: rest => e +:+ sep +:+ Join rest sep
  end.

(** [sort.Strings]: ascending in the byte order of Go's [<] on strings. *)
Definition sort_Strings (keys : list string) : list string :=
  merge_sort (fun a b : string => String.leb a b) keys.

(** *** Ranging over a map

    Go leaves the order in which [range] yields the entries of a map
    unspecified, and it may differ from one loop to the next.  A
    [Ranger] is the order chosen at one loop; it yields every entry
    once. *)
Definition Ranger : Type := forall V : Type, gmap string V -> list (string * V).

Definition valid_range (range : Ranger) : Prop :=
  forall (V : Type) (m : gmap string V), range V m ≡ₚ map_to_list m.

(** *** The message service *)

Record User := { u_ID : string }.

Record Message := {
  m_ID : string;
  m_Author : option User;
  m_Content : string
}.

Record MessageEmbed := {
  Title : string;
  Description : string;
  Color : Z
}.

Record MessageSend := {
  ms_Content : string;
  ms_Embeds : list MessageEmbed
}.

Record MessageEdit := {
  me_ID : string;
  me_Channel : string;
  me_Content : string;
  me_Embeds : list MessageEmbed
}.

(** A Go [error]: its text, and whether [errors.Is(err, os.ErrNotExist)]
    holds of it. *)
Record error := {
  Error : string;
  Is_ErrNotExist : bool
}.

(** [fmt.Errorf(prefix + "%s", err)]: a new error, which does not wrap
    [err]. *)
Definition Errorf (prefix : string) (err : error) : error :=
  {| Error := prefix +:+ Error err; Is_ErrNotExist := false |}.

(** The requests the bot sends, in the order it sends them. *)
Inductive Request :=
| ReqChannelMessage (channelID messageID : string)
| ReqChannelMessages (channelID : string) (limit : Z)
| ReqChannelMessageEditComplex (edit : MessageEdit)
| ReqChannelMessageSendComplex (channelID : string) (data : MessageSend)
| ReqChannelMessagePin (channelID messageID : string)
| ReqChannelMessageSend (channelID content : string).

(** What the service answers while one status update is published. *)
Record Session := {
  ChannelMessage : string -> string -> Message + error;
  ChannelMessages : string -> Z -> list Message + error;
  ChannelMessageEditComplex : MessageEdit -> Message + error;
  ChannelMessageSendComplex : string -> MessageSend -> Message + error;
  ChannelMessagePin : string -> string -> option error
}.

Record DiscordBot := {
  userID : string;
  session : Session
}.

(** *** Presence notifications *)

(** The calls of [sendNotifyMessage] and [sendMoveMessage]. *)
Inductive Notification :=
| NotifyMessage (server player : string) (joined : bool)
| MoveMessage (player oldserver newserver : string).

#[global] Instance Notification_eq_dec : EqDecision Notification.
Proof. solve_decision. Defined.

Section Configured.

Variable cfg : ConfigDiscord.

Definition sendNotifyMessage (server player : string) (joined : bool) : Request :=
  if joined then
    ReqChannelMessageSend (ChannelIDJoinLeave cfg)
      ("[" +:+ server +:+ "] " +:+ player +:+ " joined the server")
  else
    ReqChannelMessageSend (ChannelIDJoinLeave cfg)
      ("[" +:+ server +:+ "] " +:+ player +:+ " left the server").

Definition sendMoveMessage (player oldserver newserver : string) : Request :=
  ReqChannelMessageSend (ChannelIDJoinLeave cfg)
    ("[" +:+ oldserver +:+ " -> " +:+ newserver +:+ "] " +:+ player +:+ " moved servers").

Definition send (n : Notification) : Request :=
  match n with
  | NotifyMessage server player joined => sendNotifyMessage server player joined
  | MoveMessage player oldserver newserver => sendMoveMessage player oldserver newserver
  end.

(** The two nested loops that build a player -> server map: a later
    entry for the same player overwrites an earlier one. *)
Definition playerServer (range : Ranger) (infos : gmap string ServerInfo)
  : gmap string string :=
  foldl (fun idx '(server, info) =>
           foldl (fun idx player => <[player := server]> idx) idx (Players info))
        ∅ (range _ infos).

(** The orders of the four [range] loops of one presence diff. *)
Record Ranges := {
  rangeLast : Ranger;
  rangeIfos : Ranger;
  rangeCurr : Ranger;
  rangePrev : Ranger
}.

Definition valid_ranges (rs : Ranges) : Prop :=
  valid_range (rangeLast rs) /\ valid_range (rangeIfos rs) /\
  valid_range (rangeCurr rs) /\ valid_range (rangePrev rs).

(** The body of [if config.GlobalConfig.Discord.ShowJoinLeave] in
    [Start]: the notifications sent for one snapshot generation.
    [lastInfos] is [None] while the Go variable is [nil]. *)
Definition presenceDiff (rs : Ranges)
    (lastInfos : option (gmap string ServerInfo))
    (ifos : gmap string ServerInfo) : list Notification :=
  let prevPlayerServer :=
    match lastInfos with
    | Some last => playerServer (rangeLast rs) last
    | None => ∅
    end in
  let currPlayerServer := playerServer (rangeIfos rs) ifos in
  (* Detect joins + moves *)
  omap (fun '(player, newServer) =>
          match prevPlayerServer !! player with
          | None => Some (NotifyMessage newServer player true)
          | Some oldServer =>
              if decide (oldServer = newServer) then None
              else Some (MoveMessage player oldServer newServer)
          end)
       (rangeCurr rs _ currPlayerServer)
  ++
  (* Detect leaves *)
  omap (fun '(player, oldServer) =>
          match currPlayerServer !! player with
          | None => Some (NotifyMessage oldServer player false)
          | Some _ => None
          end)
       (rangePrev rs _ prevPlayerServer).

(** *** The status message *)

(** One pass of the loop over the sorted server names. *)
Definition embedFor (serverName : string) (serverInfo : ServerInfo) : MessageEmbed :=
  let playerlist := "No players online" in
  let color := 0x57F287 in
  let playerlist :=
    if (0 <? length (Players serverInfo))%nat then
      Join (map (fun player => "- " +:+ player) (Players serverInfo)) LF
    else playerlist in
  let '(color, playerlist) :=
    if negb (Reachable serverInfo) then (0xc1121f, "Server unreachable")
    else (color, playerlist) in
  {| Title := serverName; Description := playerlist; Color := color |}.

(** The payload assembled at the head of [updatePlayerList].  The keys
    are collected in the order of [range] and sorted; each of them is
    a key of the map, so the lookup finds its entry. *)
Definition payloadFor (range : Ranger) (serverStatusMap : gmap string ServerInfo)
  : MessageSend :=
  let keys := sort_Strings (range _ serverStatusMap).*1 in
  {| ms_Content := "# Online players";
     ms_Embeds :=
       omap (fun serverName => embedFor serverName <$> serverStatusMap !! serverName)
            keys |}.

Definition isStatusMessage (bot : DiscordBot) (m : Message) : bool :=
  match m_Author m with
  | Some a => bool_decide (u_ID a = userID bot) && Contains (m_Content m) "Online players"
  | None => false
  end.

(** [fetchExistingMessage]: the requests made, the message found (if
    any) and the error (if any). *)
Definition fetchExistingMessage (bot : DiscordBot) (existingMessageId : string)
  : list Request * (option Message * option error) :=
  if (0 <? String.length existingMessageId)%nat then
    ([ReqChannelMessage (ChannelIDStatus cfg) existingMessageId],
     match ChannelMessage (session bot) (ChannelIDStatus cfg) existingMessageId with
     | inl m => (Some m, None)
     | inr err => (None, Some err)
     end)
  else
    ([ReqChannelMessages (ChannelIDStatus cfg) 100],
     match ChannelMessages (session bot) (ChannelIDStatus cfg) 100 with
     | inr err => (None, Some err)
     | inl msgs => (List.find (isStatusMessage bot) msgs, None)
     end).

(** [updatePlayerList]: the requests made, the identifier returned and
    the error returned. *)
Definition updatePlayerList (bot : DiscordBot) (range : Ranger)
    (existingMessageId : string) (serverStatusMap : gmap string ServerInfo)
  : list Request * (string * option error) :=
  let payload := payloadFor range serverStatusMap in
  let '(reqs, (theMessage, err)) := fetchExistingMessage bot existingMessageId in
  match err with
  | Some err => (reqs, ("", Some (Errorf "fetchExistingMessage: " err)))
  | None =>
      let '(reqs, sent) :=
        match theMessage with
        | Some theMessage =>
            let edit := {| me_ID := m_ID theMessage;
                           me_Channel := ChannelIDStatus cfg;
                           me_Content := ms_Content payload;
                           me_Embeds := ms_Embeds payload |} in
            (reqs ++ [ReqChannelMessageEditComplex edit],
             match ChannelMessageEditComplex (session bot) edit with
             | inl m => inl m
             | inr err => inr (Errorf "ChannelMessageEditComplex: " err)
             end)
        | None =>
            (reqs ++ [ReqChannelMessageSendComplex (ChannelIDStatus cfg) payload],
             match ChannelMessageSendComplex (session bot) (ChannelIDStatus cfg) payload with
             | inl m => inl m
             | inr err => inr (Errorf "ChannelMessageSendComplex: " err)
             end)
        end in
      match sent with
      | inr err => (reqs, ("", Some err))
      | inl theMessage =>
          if PinPlayerList cfg then
            let reqs := reqs ++ [ReqChannelMessagePin (ChannelIDStatus cfg) (m_ID theMessage)] in
            match ChannelMessagePin (session bot) (ChannelIDStatus cfg) (m_ID theMessage) with
            | Some err => (reqs, ("", Some (Errorf "ChannelMessagePin: " err)))
            | None => (reqs, (m_ID theMessage, None))
            end
          else (reqs, (m_ID theMessage, None))
      end
  end.

(** *** The persisted message identifier *)

(** [readMessageId], given what [os.ReadFile] returns for the path. *)
Definition readMessageId (ReadFile : string -> string + error) (path : string)
  : string * option error :=
  match ReadFile path with
  | inr err =>
      if Is_ErrNotExist err then ("", None)   (* file does not exist *)
      else ("", Some err)
  | inl b => (b, None)
  end.

(** *** [Start] *)

(** What [Start] meets before it begins to serve snapshots. *)
Record Startup := {
  ReadFile : string -> string + error;          (* os.ReadFile *)
  New : string -> Session + error;              (* discordgo.New *)
  Open : Session -> option error;               (* s.Open *)
  StateUserID : Session -> option string;       (* s.State.User.ID, when set *)
  UserMe : Session -> User + error              (* s.User("@me") *)
}.

Record Serving := {
  bot : DiscordBot;
  existingMessageId : string;
  lastInfos : option (gmap string ServerInfo)
}.

(** [Start] up to its loop over the update channel: either the error it
    returns, or the state in which it enters the loop.  With the eventer
    enabled it also registers the two event handlers, runs
    [syncExistingEvents] and starts [reminderWorker]; these act on the
    reminder store only and are embedded further down. *)
Definition Start_connect (env : Startup) : Serving + error :=
  match readMessageId (ReadFile env) (CachePath cfg) with
  | (_, Some err) => inr err
  | (i, None) =>
      let existingMessageId := if (0 <? String.length i)%nat then i else "" in
      match New env ("Bot " +:+ BotToken cfg) with
      | inr err => inr err
      | inl s =>
          match Open env s with
          | Some err => inr err
          | None =>
              let userID :=
                match StateUserID env s with
                | Some id => if bool_decide (id = "") then
                               match UserMe env s with inl u => u_ID u | inr _ => "" end
                             else id
                | None => match UserMe env s with inl u => u_ID u | inr _ => "" end
                end in
              inl {| bot := {| userID := userID; session := s |};
                     existingMessageId := existingMessageId;
                     lastInfos := None |}
          end
      end
  end.

(** One turn of the loop [for ifos := range updateChan]: the requests
    sent, the identifier written to the cache file and the state for
    the next turn.  [range] is the order of the loop that collects the
    server names, [rs] the orders of the presence diff. *)
Definition Start_cycle (range : Ranger) (rs : Ranges) (st : Serving)
    (ifos : gmap string ServerInfo) : list Request * string * Serving :=
  let '(reqs, (msgId, _)) := updatePlayerList (bot st) range (existingMessageId st) ifos in
  let notes :=
    if ShowJoinLeave cfg then map send (presenceDiff rs (lastInfos st) ifos) else [] in
  (reqs ++ notes, msgId,
   {| bot := bot st;
      existingMessageId := msgId;
      lastInfos :=
        Some ((fun info => {| Name := Name info;
                              Players := Players info;
                              Reachable := Reachable info |}) <$> ifos) |}).

End Configured.

(** *** The event reminders *)

Record Reminder := {
  EventID : string;
  EventName : string;
  EventURL : string;
  StartTime : Z;    (* the start of the event *)
  RemindAt : Z;     (* when the bot should post the message *)
  Now : bool
}.

Record GuildScheduledEvent := {
  ev_ID : string;
  ev_GuildID : string;
  ev_Name : string;
  ScheduledStartTime : Z;
  ev_Status : Z
}.

Definition GuildScheduledEventStatusScheduled : Z := 1.
Definition GuildScheduledEventStatusActive : Z := 2.
Definition GuildScheduledEventStatusCompleted : Z := 3.
Definition GuildScheduledEventStatusCanceled : Z := 4.

(** The package variable [store], the number of clock readings taken so
    far and the messages handed to [ChannelMessageSend]. *)
Record World := {
  Pending : list Reminder;
  readings : nat;
  outbox : list Request
}.

(** A handler or a worker tick: it runs to completion while it holds the
    lock of the store. *)
Definition Action (A : Type) : Type := World -> A * World.

#[global] Instance Action_ret : MRet Action := fun A a w => (a, w).
#[global] Instance Action_bind : MBind Action :=
  fun A B f c w => let '(a, w') := c w in f a w'.

Definition getPending : Action (list Reminder) := fun w => (Pending w, w).

Definition setPending (l : list Reminder) : Action () :=
  fun w => (tt, {| Pending := l; readings := readings w; outbox := outbox w |}).

Definition ChannelMessageSend (channelID content : string) : Action () :=
  fun w => (tt, {| Pending := Pending w; readings := readings w;
                   outbox := outbox w ++ [ReqChannelMessageSend channelID content] |}).

Fixpoint forEach {A : Type} (l : list A) (body : A -> Action ()) : Action () :=
  match l with
  | [] => mret tt
  | x :: l' => body x ≫= fun _ => forEach l' body
  end.

Section Eventer.

Variable cfg : ConfigDiscord.

(** The wall clock: the instant returned by the [n]-th call of
    [time.Now()]. *)
Variable clock : nat -> Z.

(** [t.In(cetLocation).Format(layout)]; the time zone data is outside
    the program. *)
Variable FormatCET : string -> Z -> string.

Definition time_Now : Action Z :=
  fun w => (clock (readings w),
            {| Pending := Pending w; readings := S (readings w); outbox := outbox w |}).

Definition eventURL (event : GuildScheduledEvent) : string :=
  "https://discord.com/events/" +:+ ev_GuildID event +:+ "/" +:+ ev_ID event.

Definition removeRemindersForEvent (eventID : string) : Action () :=
  pending ← getPending;
  setPending (filter (fun r => EventID r ≠ eventID) pending).

Definition enqueue (r : Reminder) : Action () :=
  pending ← getPending; setPending (pending ++ [r]).

(** The body of the loop over the configured offsets. *)
Definition queueOffset (event : GuildScheduledEvent) (offset : Z) : Action () :=
  let remindTime := Time.Add (ScheduledStartTime event) (Int64.neg offset) in
  now ← time_Now;
  if Time.Before now remindTime then
    enqueue {| EventID := ev_ID event;
               EventName := ev_Name event;
               EventURL := eventURL event;
               StartTime := ScheduledStartTime event;
               RemindAt := remindTime;
               Now := false |};;
    (* the log line reads the clock once more *)
    _ ← time_Now; mret tt
  else mret tt.

Definition queueReminders (event : GuildScheduledEvent) : Action () :=
  forEach (ReminderOffsets (Eventer cfg)) (queueOffset event);;
  now ← time_Now;
  if Time.Before now (ScheduledStartTime event) then
    enqueue {| EventID := ev_ID event;
               EventName := ev_Name event;
               EventURL := eventURL event;
               StartTime := ScheduledStartTime event;
               RemindAt := ScheduledStartTime event;
               Now := true |};;
    _ ← time_Now; mret tt
  else mret tt.

Definition createRemindersForEvent (event : GuildScheduledEvent) : Action () :=
  let msg := "**Neues Event wurde erstellt** " +:+ LF +:+ LF +:+ "@everyone" +:+ LF +:+ LF
             +:+ eventURL event in
  ChannelMessageSend (ChannelIDJoinEvents cfg) msg;;
  queueReminders event.

Definition updateRemindersForEvent (e : GuildScheduledEvent) : Action () :=
  if negb (ev_Status e =? GuildScheduledEventStatusScheduled) then
    mret tt   (* only the status change is logged *)
  else
    removeRemindersForEvent (ev_ID e);;
    queueReminders e.

(** The two texts [reminderWorker] posts: for the reminder at the start
    of the event, and for an earlier one. *)
Definition startsNowText (r : Reminder) : string :=
  "**Reminder** " +:+ LF +:+ LF +:+ "@everyone" +:+ LF +:+ LF +:+
  "Event '" +:+ EventName r +:+ "' startet JETZT!" +:+ LF +:+ LF +:+ EventURL r.

Definition startsAtText (r : Reminder) (now : Z) : string :=
  let timeStr := FormatCET "15:04" (StartTime r) in
  let dateStr := FormatCET "02.01." (StartTime r) in
  "**Reminder** " +:+ LF +:+ LF +:+ "@everyone" +:+ LF +:+ LF +:+
  "Event '" +:+ EventName r +:+ "' startet am " +:+ dateStr +:+ " um " +:+ timeStr
  +:+ "! (in " +:+
  Utils.FormatDuration (Time.Round (Time.Sub (StartTime r) now) Time.Second) Utils.German
  +:+ ")" +:+ LF +:+ LF +:+ EventURL r.

Definition reminderMessage (r : Reminder) : Action string :=
  if Now r then mret (startsNowText r)
  else now ← time_Now; mret (startsAtText r now).

(** The loop over [store.Pending] in [reminderWorker]. *)
Fixpoint drain (now : Z) (pending remaining : list Reminder) : Action (list Reminder) :=
  match pending with
  | [] => mret remaining
  | r :: pending' =>
      if Time.After now (RemindAt r) then
        msg ← reminderMessage r;
        ChannelMessageSend (ChannelIDJoinEvents cfg) msg;;
        drain now pending' remaining
      else drain now pending' (remaining ++ [r])
  end.

(** One tick of [reminderWorker]. *)
Definition reminderWorker_tick : Action () :=
  now ← time_Now;
  pending ← getPending;
  remaining ← drain now pending [];
  setPending remaining.

(** [syncExistingEvents], given for each guild of the session what
    [GuildScheduledEvents] returns. *)
Definition syncExistingEvents
    (guilds : list (list GuildScheduledEvent + error)) : Action () :=
  forEach guilds (fun events =>
    match events with
    | inr _ => mret tt
    | inl events => forEach events queueReminders
    end).

End Eventer.

End Discord.

(** ** [internal/config]: parsing *)

Module ConfigParse.

Record ConfigRconServer := {
  Address : string;
  Name : string;
  Password : string
}.

Record ConfigRcon := {
  Servers : list ConfigRconServer;
  QueryEverySeconds : Z
}.

Record ConfigEventer := {
  Enabled : bool;
  ReminderOffsets : list Z;           (* []time.Duration *)
  ReminderOffsetsRaw : list string
}.

Record ConfigDiscord := {
  ChannelIDStatus : string;
  ChannelIDJoinLeave : string;
  ChannelIDJoinEvents : string;
  BotToken : string;
  Tag : string;
  CachePath : string;
  ShowJoinLeave : bool;
  PinPlayerList : bool;
  Eventer : ConfigEventer
}.

Record Config := {
  Rcon : ConfigRcon;
  Discord : ConfigDiscord;
  LogFile : string
}.

(** [strings.Split(s, sep)] for a separator of one byte, as both calls
    in [parseRconServers] have it: the pieces between the separators, one
    more than there are separators. *)
Fixpoint Split (s : string) (sep : Ascii.ascii) : list string :=
  match s with
  | EmptyString => [""]
  | String c s' =>
      if Ascii.eqb c sep then "" :: Split s' sep
      else match Split s' sep with
           | piece :: pieces => String c piece :: pieces
           | [] => [String c ""]
           end
  end.

Definition semicolon : Ascii.ascii := Ascii.ascii_of_nat 59.
Definition comma : Ascii.ascii := Ascii.ascii_of_nat 44.

(** Functions of Go's library, taken as they are: [strings.TrimSpace],
    [strings.Fields], [strconv.ParseInt(s, 10, 64)] (the value, or the
    text of the error), [strings.ToLower], and the verb [%q]. *)
Class Library := {
  TrimSpace : string -> string;
  Fields : string -> list string;
  ParseInt : string -> Z + string;
  ToLower : string -> string;
  Quote : string -> string
}.

Section Parsers.

Context {lib : Library}.

(** [parseDurationString]: the duration and the text of the error, if
    any. *)
Definition parseDurationString (s : string) : Z * option string :=
  match Fields (TrimSpace s) with
  | [number; word] =>
      match ParseInt number with
      | inr err =>
          (0, Some ("invalid number in duration " +:+ Quote s +:+ ": " +:+ err))
      | inl value =>
          let unit := ToLower word in
          if bool_decide (unit = "minute" \/ unit = "minutes") then
            (Int64.mul value Time.Minute, None)
          else if bool_decide (unit = "hour" \/ unit = "hours") then
            (Int64.mul value Time.Hour, None)
          else if bool_decide (unit = "day" \/ unit = "days") then
            (Int64.mul (Int64.mul value 24) Time.Hour, None)
          else if bool_decide (unit = "week" \/ unit = "weeks") then
            (Int64.mul (Int64.mul (Int64.mul value 7) 24) Time.Hour, None)
          else (0, Some ("invalid unit in duration " +:+ Quote s))
      end
  | _ => (0, Some ("invalid duration format: " +:+ Quote s))
  end.

(** The loop of [parseDurations], with [res] as far as it is built. *)
Fixpoint parseDurations_loop (res : list Z) (durations : list string)
  : list Z * option string :=
  match durations with
  | [] => (res, None)
  | s :: durations' =>
      match parseDurationString s with
      | (_, Some err) => (res, Some err)
      | (d, None) => parseDurations_loop (res ++ [d]) durations'
      end
  end.

Definition parseDurations (durations : list string) : list Z * option string :=
  parseDurations_loop [] durations.

(** The loop of [parseRconServers] over the entries, [idx] counting
    from zero; [servers] is [cfg.Rcon.Servers]. *)
Fixpoint parseRconServers_loop (servers : list ConfigRconServer) (idx : Z)
    (entries : list string) : list ConfigRconServer * option string :=
  match entries with
  | [] => (servers, None)
  | entry :: entries' =>
      let entry := TrimSpace entry in
      if bool_decide (entry = "") then
        parseRconServers_loop servers (idx + 1) entries'   (* skip empty entries *)
      else
        let parts := Split entry comma in
        match parts with
        | [p0; p1; p2] =>
            let server := {| Address := TrimSpace p0;
                             Name := TrimSpace p1;
                             Password := TrimSpace p2 |} in
            if bool_decide (Address server = "" \/ Name server = "" \/ Password server = "")
            then
              (servers,
               Some ("invalid server entry #" +:+ Utils.itoa (idx + 1) +:+
                     ": fields must not be empty (" +:+ Quote entry +:+ ")"))
            else parseRconServers_loop (servers ++ [server]) (idx + 1) entries'
        | _ =>
            (servers,
             Some ("invalid server entry #" +:+ Utils.itoa (idx + 1) +:+
                   ": expected 3 comma-separated fields, got " +:+
                   Utils.itoa (Z.of_nat (length parts)) +:+
                   " (" +:+ Quote entry +:+ ")"))
        end
  end.

(** [parseRconServers]: the servers of the configuration afterwards
    and the text of the error, if any. *)
Definition parseRconServers (servers : list ConfigRconServer) (envValue : string)
  : list ConfigRconServer * option string :=
  if bool_decide (TrimSpace envValue = "") then
    (servers, Some "RCON_SERVERS env variable is empty")
  else parseRconServers_loop servers 0 (Split envValue semicolon).

Definition defaultOffsets : list Z :=
  [24 * Time.Hour; 2 * Time.Hour; 15 * Time.Minute].

(** [ParseConfig] after [_parseConfig] has returned [res]: the
    configuration stored in [GlobalConfig], or [None] where the program
    exits. *)
Definition ParseConfig (res : Config) : option Config :=
  if bool_decide (Servers (Rcon res) = []) then None
  else if bool_decide (BotToken (Discord res) = "") then None
  else if bool_decide (ChannelIDStatus (Discord res) = "") then None
  else
    let d := Discord res in
    let joinLeave :=
      if bool_decide (ChannelIDJoinLeave d = "") then ChannelIDStatus d
      else ChannelIDJoinLeave d in
    let tag := if bool_decide (Tag d = "") then "lazydodobot" else Tag d in
    let cachePath := if bool_decide (CachePath d = "") then "cache.txt" else CachePath d in
    let every :=
      if QueryEverySeconds (Rcon res) =? 0 then 60 else QueryEverySeconds (Rcon res) in
    let logFile := if bool_decide (LogFile res = "") then "-" else LogFile res in
    let offsets :=
      match ReminderOffsets (Eventer d) with
      | [] =>
          match ReminderOffsetsRaw (Eventer d) with
          | [] => Some defaultOffsets
          | raw =>
              match parseDurations raw with
              | (_, Some _) => None
              | (o, None) => Some o
              end
          end
      | configured => Some configured
      end in
    match offsets with
    | None => None
    | Some offsets =>
        if bool_decide (ChannelIDJoinEvents d = "-") && Enabled (Eventer d) then None
        else
          Some {| Rcon := {| Servers := Servers (Rcon res); QueryEverySeconds := every |};
                  Discord :=
                    {| ChannelIDStatus := ChannelIDStatus d;
                       ChannelIDJoinLeave := joinLeave;
                       ChannelIDJoinEvents := ChannelIDJoinEvents d;
                       BotToken := BotToken d;
                       Tag := tag;
                       CachePath := cachePath;
                       ShowJoinLeave := ShowJoinLeave d;
                       PinPlayerList := PinPlayerList d;
                       Eventer :=
                         {| Enabled := Enabled (Eventer d);
                            ReminderOffsets := offsets;
                            ReminderOffsetsRaw := ReminderOffsetsRaw (Eventer d) |} |};
                  LogFile := logFile |}
    end.

End Parsers.

End ConfigParse.

(** Notions used to state the properties of the parsers. *)

Module ConfigSpec.
Import ConfigParse.

(** The nanoseconds of the unit a duration string names. *)
Definition unit_nanoseconds (unit : string) : option Z :=
  if bool_decide (unit = "minute" \/ unit = "minutes") then Some Time.Minute
  else if bool_decide (unit = "hour" \/ unit = "hours") then Some Time.Hour
  else if bool_decide (unit = "day" \/ unit = "days") then Some (24 * Time.Hour)
  else if bool_decide (unit = "week" \/ unit = "weeks") then Some (7 * 24 * Time.Hour)
  else None.

Definition no_empty_field (server : ConfigRconServer) : Prop :=
  Address server ≠ "" /\ Name server ≠ "" /\ Password server ≠ "".

(** Library functions for the examples: no trimming, a split at the
    first blank, decimal digits only. *)
Definition sampleFields (s : string) : list string := Split s (Ascii.ascii_of_nat 32).

Definition sampleParseInt (s : string) : Z + string :=
  if bool_decide (s = "2") then inl 2
  else if bool_decide (s = "15") then inl 15
  else inr "invalid syntax".

Definition sampleLibrary : Library :=
  {| TrimSpace := id;
     Fields := sampleFields;
     ParseInt := sampleParseInt;
     ToLower := id;
     Quote := id |}.

Definition sampleConfigFile : Config :=
  {| Rcon := {| Servers := [{| Address := "10.0.0.1:27015"; Name := "Main"; Password := "x" |}];
                QueryEverySeconds := 0 |};
     Discord := {| ChannelIDStatus := "status";
                   ChannelIDJoinLeave := "";
                   ChannelIDJoinEvents := "events";
                   BotToken := "token";
                   Tag := "";
                   CachePath := "";
                   ShowJoinLeave := true;
                   PinPlayerList := true;
                   Eventer := {| Enabled := true;
                                 ReminderOffsets := [];
                                 ReminderOffsetsRaw := ["2 hours"; "15 minutes"] |} |};
     LogFile := "" |}.

End ConfigSpec.

(** ** Notions used to state the properties *)

Module DiscordSpec.
Import Model Config Discord.

(** *** Orders of iteration *)

Definition rangeInOrder : Ranger := fun V m => map_to_list m.
Definition rangeReversed : Ranger := fun V m => reverse (map_to_list m).

Definition inOrder : Ranges :=
  {| rangeLast := rangeInOrder; rangeIfos := rangeInOrder;
     rangeCurr := rangeInOrder; rangePrev := rangeInOrder |}.

Definition reversed : Ranges :=
  {| rangeLast := rangeReversed; rangeIfos := rangeReversed;
     rangeCurr := rangeReversed; rangePrev := rangeReversed |}.

(** *** Presence *)

(** The player a notification is about. *)
Definition subject (n : Notification) : string :=
  match n with
  | NotifyMessage _ player _ => player
  | MoveMessage player _ _ => player
  end.

(** Player [p] is in the list of server [s]. *)
Definition listed (gen : gmap string ServerInfo) (p s : string) : Prop :=
  exists info, gen !! s = Some info /\ p ∈ Players info.

(** No player is in the lists of two servers. *)
Definition single_server (gen : gmap string ServerInfo) : Prop :=
  forall p s1 s2, listed gen p s1 -> listed gen p s2 -> s1 = s2.

(** Two generations list the same players on the same servers, in
    whatever order. *)
Definition same_presence (gen gen' : gmap string ServerInfo) : Prop :=
  forall p s, listed gen p s <-> listed gen' p s.

(** A generation that is [nil] lists nobody. *)
Definition generation (lastInfos : option (gmap string ServerInfo))
  : gmap string ServerInfo :=
  default ∅ lastInfos.

Definition serverWith (name : string) (players : list string) : ServerInfo :=
  {| Name := name; Players := players; Reachable := true |}.

(** Player [p] shows up on both servers. *)
Definition twoServers : gmap string ServerInfo :=
  <["A" := serverWith "A" ["p"]]> (<["B" := serverWith "B" ["p"]]> ∅).

Definition oneServer : gmap string ServerInfo :=
  <["A" := serverWith "A" ["p"]]> ∅.

(** *** Kinds of request *)

Definition is_edit (r : Request) : bool :=
  match r with ReqChannelMessageEditComplex _ => true | _ => false end.

Definition is_create (r : Request) : bool :=
  match r with ReqChannelMessageSendComplex _ _ => true | _ => false end.

Definition is_pin (r : Request) : bool :=
  match r with ReqChannelMessagePin _ _ => true | _ => false end.

(** *** Reminders *)

Definition key (r : Reminder) : string * Z := (EventID r, RemindAt r).

(** At most one reminder for an (EventID, RemindAt) pair. *)
Definition unique_reminders (w : World) : Prop := NoDup (key <$> Pending w).

(** The request that hands reminder [r] to the sender. *)
Definition delivers (cfg : ConfigDiscord) (FormatCET : string -> Z -> string)
    (r : Reminder) (req : Request) : Prop :=
  exists now,
    req = ReqChannelMessageSend (ChannelIDJoinEvents cfg)
            (if Now r then startsNowText r else startsAtText FormatCET r now).

(** The instant the code computes for an offset,
    [event.ScheduledStartTime.Add(-offset)]. *)
Definition remindTime (event : GuildScheduledEvent) (offset : Z) : Z :=
  Time.Add (ScheduledStartTime event) (Int64.neg offset).

Definition offsetReminder (event : GuildScheduledEvent) (offset : Z) : Reminder :=
  {| EventID := ev_ID event;
     EventName := ev_Name event;
     EventURL := eventURL event;
     StartTime := ScheduledStartTime event;
     RemindAt := remindTime event offset;
     Now := false |}.

Definition immediateReminder (event : GuildScheduledEvent) : Reminder :=
  {| EventID := ev_ID event;
     EventName := ev_Name event;
     EventURL := eventURL event;
     StartTime := ScheduledStartTime event;
     RemindAt := ScheduledStartTime event;
     Now := true |}.

(** The reminder set of the design document, derived at one instant
    [now]: one reminder per offset whose instant is strictly after [now],
    and the immediate one when the start is strictly after [now]. *)
Definition reminderSet (offsets : list Z) (now : Z) (event : GuildScheduledEvent)
  : list Reminder :=
  map (offsetReminder event) (filter (fun o => now < remindTime event o) offsets)
  ++ (if bool_decide (now < ScheduledStartTime event) then [immediateReminder event] else []).

(** What the loop over the offsets appends when it starts at clock
    reading [n], and the reading it ends at. *)
Fixpoint offsetsFrom (clock : nat -> Z) (event : GuildScheduledEvent)
    (offsets : list Z) (n : nat) : list Reminder * nat :=
  match offsets with
  | [] => ([], n)
  | o :: offsets' =>
      if clock n <? remindTime event o then
        let '(l, n') := offsetsFrom clock event offsets' (S (S n)) in
        (offsetReminder event o :: l, n')
      else offsetsFrom clock event offsets' (S n)
  end.

(** What [queueReminders] appends when it starts at reading [n]. *)
Definition derivedFrom (clock : nat -> Z) (offsets : list Z)
    (event : GuildScheduledEvent) (n : nat) : list Reminder * nat :=
  let '(l, n') := offsetsFrom clock event offsets n in
  if clock n' <? ScheduledStartTime event then (l ++ [immediateReminder event], S (S n'))
  else (l, S n').

(** The offsets are representable, pairwise distinct and none is zero. *)
Definition distinct_offsets (offsets : list Z) : Prop :=
  Forall Int64.in_range offsets /\ NoDup offsets /\ 0 ∉ offsets.

(** A reminder is the immediate reminder of some event, or its reminder
    for one of the offsets. *)
Definition derived_reminder (offsets : list Z) (r : Reminder) : Prop :=
  exists event,
    r = immediateReminder event \/
    exists o, o ∈ offsets /\ r = offsetReminder event o.

(** The message [createRemindersForEvent] posts. *)
Definition announcement (cfg : ConfigDiscord) (event : GuildScheduledEvent) : Request :=
  ReqChannelMessageSend (ChannelIDJoinEvents cfg)
    ("**Neues Event wurde erstellt** " +:+ LF +:+ LF +:+ "@everyone" +:+ LF +:+ LF
     +:+ eventURL event).

(** What reaches the event handlers and the worker. *)
Inductive Input :=
| EventCreate (e : GuildScheduledEvent)
| EventUpdate (e : GuildScheduledEvent)
| Reconcile (guilds : list (list GuildScheduledEvent + error))
| Tick.

Definition handle (cfg : ConfigDiscord) (clock : nat -> Z)
    (FormatCET : string -> Z -> string) (i : Input) : Action () :=
  match i with
  | EventCreate e => createRemindersForEvent cfg clock e
  | EventUpdate e => updateRemindersForEvent cfg clock e
  | Reconcile guilds => syncExistingEvents cfg clock guilds
  | Tick => reminderWorker_tick cfg clock FormatCET
  end.

(** The events a reconciliation queues reminders for. *)
Definition reconciled (guilds : list (list GuildScheduledEvent + error))
  : list GuildScheduledEvent :=
  concat (omap (fun g => match g with inl events => Some events | inr _ => None end) guilds).

Definition pendingFor (w : World) (eventID : string) : Prop :=
  exists r, r ∈ Pending w /\ EventID r = eventID.

(** An input that announces events announces each of them once, and
    none of them has a reminder pending. *)
Definition announces_new (i : Input) (w : World) : Prop :=
  match i with
  | EventCreate e => ~ pendingFor w (ev_ID e)
  | Reconcile guilds =>
      NoDup (ev_ID <$> reconciled guilds) /\
      forall e, e ∈ reconciled guilds -> ~ pendingFor w (ev_ID e)
  | EventUpdate _ | Tick => True
  end.

(** The states of the store reached from the empty store by inputs
    that satisfy [ok]. *)
Inductive reachable (cfg : ConfigDiscord) (clock : nat -> Z)
    (FormatCET : string -> Z -> string) (ok : Input -> World -> Prop) : World -> Prop :=
| reachable_start (n : nat) :
    reachable cfg clock FormatCET ok {| Pending := []; readings := n; outbox := [] |}
| reachable_step (w : World) (i : Input) :
    reachable cfg clock FormatCET ok w -> ok i w ->
    reachable cfg clock FormatCET ok (handle cfg clock FormatCET i w).2.

Definition any_input (i : Input) (w : World) : Prop := True.

(** *** Sample data *)

Definition sampleConfig (offsets : list Z) : ConfigDiscord :=
  {| ChannelIDStatus := "status";
     ChannelIDJoinLeave := "joinleave";
     ChannelIDJoinEvents := "events";
     BotToken := "token";
     CachePath := "cache.txt";
     ShowJoinLeave := true;
     PinPlayerList := true;
     Eventer := {| Enabled := true; ReminderOffsets := offsets |} |}.

Definition sampleEvent : GuildScheduledEvent :=
  {| ev_ID := "E";
     ev_GuildID := "G";
     ev_Name := "raid";
     ScheduledStartTime := 10 * Time.Hour;
     ev_Status := GuildScheduledEventStatusScheduled |}.

Definition noFormat : string -> Z -> string := fun _ _ => "".

Definition botUser : User := {| u_ID := "bot" |}.

Definition statusMessage : Message :=
  {| m_ID := "42"; m_Author := Some botUser; m_Content := "# Online players" |}.

(** A service that no longer finds a message by its identifier, though
    the status message is among the recent ones. *)
Definition lostSession : Session :=
  {| ChannelMessage := fun _ _ =>
       inr {| Error := "HTTP 404 Not Found"; Is_ErrNotExist := false |};
     ChannelMessages := fun _ _ => inl [statusMessage];
     ChannelMessageEditComplex := fun edit =>
       inl {| m_ID := me_ID edit; m_Author := Some botUser; m_Content := me_Content edit |};
     ChannelMessageSendComplex := fun _ data =>
       inl {| m_ID := "43"; m_Author := Some botUser; m_Content := ms_Content data |};
     ChannelMessagePin := fun _ _ => None |}.

Definition sampleBot : DiscordBot := {| userID := "bot"; session := lostSession |}.

(** A start at which reading the cache file gives [read]. *)
Definition sampleStartup (read : string + error) : Startup :=
  {| ReadFile := fun _ => read;
     New := fun _ => inl lostSession;
     Open := fun _ => None;
     StateUserID := fun _ => Some "bot";
     UserMe := fun _ => inl botUser |}.

Definition permissionDenied : error :=
  {| Error := "open cache.txt: permission denied"; Is_ErrNotExist := false |}.

Definition noSuchFile : error :=
  {| Error := "open cache.txt: no such file or directory"; Is_ErrNotExist := true |}.

Definition emptyWorld : World := {| Pending := []; readings := 0; outbox := [] |}.

End DiscordSpec.

(** ** Negation on int64 *)

Module Int64Facts.
Import Int64.

Lemma neg_opp (x : Z) : min_value < x <= max_value -> neg x = - x.
Proof.
  unfold neg, wrap, min_value, max_value.
  change (2 ^ 63) with 9223372036854775808.
  change (2 ^ 64) with 18446744073709551616.
  intros H. Z.to_euclidean_division_equations. lia.
Qed.

Lemma neg_min_value : neg min_value = min_value.
Proof. reflexivity. Qed.

Lemma neg_inj (x y : Z) : in_range x -> in_range y -> neg x = neg y -> x = y.
Proof.
  unfold in_range, neg, wrap, min_value, max_value.
  change (2 ^ 63) with 9223372036854775808.
  change (2 ^ 64) with 18446744073709551616.
  intros Hx Hy H. Z.to_euclidean_division_equations. lia.
Qed.

Lemma neg_eq_0 (x : Z) : in_range x -> neg x = 0 -> x = 0.
Proof.
  unfold in_range, neg, wrap, min_value, max_value.
  change (2 ^ 63) with 9223372036854775808.
  change (2 ^ 64) with 18446744073709551616.
  intros Hx H. Z.to_euclidean_division_equations. lia.
Qed.

End Int64Facts.

(** ** Facts about rounding *)

Module Float64Facts.
Import Float64.

Lemma one_pos : 0 < one.
Proof. unfold one. apply Z.pow_pos_nonneg; lia. Qed.

(** [rne_div n d] is within one half of [n / d], and a tie is resolved
    to an even integer. *)
Lemma rne_div_spec (n d : Z) :
  0 < d ->
  (2 * rne_div n d - 1) * d <= 2 * n <= (2 * rne_div n d + 1) * d /\
  (2 * n = (2 * rne_div n d + 1) * d -> Z.even (rne_div n d) = true) /\
  (2 * n = (2 * rne_div n d - 1) * d -> Z.even (rne_div n d) = true).
Proof.
  intros Hd. unfold rne_div.
  pose proof (Z.div_mod n d ltac:(lia)) as Hn.
  pose proof (Z.mod_pos_bound n d Hd) as Hr.
  set (q := n / d) in *. set (r := n mod d) in *.
  destruct (Z.ltb_spec (2 * r) d) as [H1|H1].
  - repeat split; try nia.
  - destruct (Z.ltb_spec d (2 * r)) as [H2|H2].
    + repeat split; try nia.
    + assert (2 * r = d) as H3 by lia.
      destruct (Z.even q) eqn:Hq.
      * repeat split; try nia. intros _. exact Hq.
      * repeat split; try nia. intros _.
        rewrite Z.even_add, Hq. reflexivity.
Qed.

Lemma rne_div_mono (n1 d1 n2 d2 : Z) :
  0 < d1 -> 0 < d2 -> n1 * d2 <= n2 * d1 ->
  rne_div n1 d1 <= rne_div n2 d2.
Proof.
  intros Hd1 Hd2 Hle.
  destruct (rne_div_spec n1 d1 Hd1) as ([Hlo1 _] & _ & Ht1).
  destruct (rne_div_spec n2 d2 Hd2) as ([_ Hhi2] & Ht2 & _).
  set (k1 := rne_div n1 d1) in *. set (k2 := rne_div n2 d2) in *.
  destruct (Z_le_gt_dec k1 k2) as [|Hgt]; [assumption|exfalso].
  assert ((2 * k1 - 1) * (d1 * d2) <= (2 * k2 + 1) * (d1 * d2)) as Hc by nia.
  assert (2 * k1 - 1 <= 2 * k2 + 1) as Hk.
  { apply Z.mul_le_mono_pos_r with (p := d1 * d2); [nia|assumption]. }
  assert (k1 = k2 + 1) as Hk1 by lia.
  assert (2 * n1 = (2 * k1 - 1) * d1) as E1 by nia.
  assert (2 * n2 = (2 * k2 + 1) * d2) as E2 by nia.
  specialize (Ht1 E1). specialize (Ht2 E2).
  rewrite Hk1, Z.even_add, Ht2 in Ht1. discriminate.
Qed.

Lemma rne_div_exact (k d : Z) : 0 < d -> rne_div (k * d) d = k.
Proof.
  intros Hd. unfold rne_div.
  rewrite Z.div_mul, Z.mod_mul by lia.
  destruct (Z.ltb_spec (2 * 0) d); [reflexivity|lia].
Qed.

Lemma rne_div_ge (k n d : Z) : 0 < d -> k * d <= n -> k <= rne_div n d.
Proof.
  intros Hd H. etransitivity; [|apply (rne_div_mono (k * d) d n d); nia].
  rewrite rne_div_exact; lia.
Qed.

Lemma rne_div_le (k n d : Z) : 0 < d -> n <= k * d -> rne_div n d <= k.
Proof.
  intros Hd H. etransitivity; [apply (rne_div_mono n d (k * d) d); nia|].
  rewrite rne_div_exact; lia.
Qed.

Lemma rne_div_below_half (k n d : Z) :
  0 < d -> 2 * n < (2 * k + 1) * d -> rne_div n d <= k.
Proof.
  intros Hd H.
  destruct (rne_div_spec n d Hd) as ([Hlo _] & _).
  assert ((2 * rne_div n d - 1) * d < (2 * k + 1) * d) as Hc by lia.
  apply Z.mul_lt_mono_pos_r in Hc; lia.
Qed.

Lemma div_le_cross (a1 b1 a2 b2 : Z) :
  0 < b1 -> 0 < b2 -> a1 * b2 <= a2 * b1 -> a1 / b1 <= a2 / b2.
Proof.
  intros H1 H2 H.
  apply Z.div_le_lower_bound; [assumption|].
  pose proof (Z.mul_div_le a1 b1 H1) as Hq.
  assert (b1 * (b2 * (a1 / b1)) <= b1 * a2) as Hc by nia.
  apply Z.mul_le_mono_pos_l in Hc; assumption.
Qed.

Lemma round_pos_mono (a1 b1 a2 b2 : Z) :
  0 <= a1 -> 0 < b1 -> 0 < b2 -> a1 * b2 <= a2 * b1 ->
  round_pos a1 b1 <= round_pos a2 b2.
Proof.
  intros Ha1 Hb1 Hb2 Hle. unfold round_pos.
  pose proof (div_le_cross a1 b1 a2 b2 Hb1 Hb2 Hle) as Hq.
  assert (0 <= a1 / b1) as Hq1 by (apply Z.div_pos; lia).
  pose proof (Z.log2_le_mono _ _ Hq) as Hlog.
  set (q1 := a1 / b1) in *. set (q2 := a2 / b2) in *.
  set (e1 := Z.max 0 (Z.log2 q1 - 52)). set (e2 := Z.max 0 (Z.log2 q2 - 52)).
  assert (0 <= e1 <= e2) as He by (unfold e1, e2; lia).
  assert (0 < 2 ^ e1) as Hp1 by (apply Z.pow_pos_nonneg; lia).
  assert (0 < 2 ^ e2) as Hp2 by (apply Z.pow_pos_nonneg; lia).
  destruct (Z.eq_dec e1 e2) as [Heq|Hne].
  - rewrite <- Heq. apply Z.mul_le_mono_nonneg_r; [lia|].
    apply rne_div_mono; nia.
  - assert (e1 + 1 <= e2) as Hlt by lia.
    assert (e2 = Z.log2 q2 - 52) as He2 by (unfold e2 in *; lia).
    assert (0 < q2) as Hq2pos.
    { destruct (Z_lt_le_dec 0 q2) as [|Hn]; [assumption|].
      rewrite (Z.log2_nonpos q2 Hn) in He2. lia. }
    (* the larger operand rounds to at least [2^(52+e2)] *)
    assert (2 ^ 52 <= rne_div a2 (b2 * 2 ^ e2)) as Hbig.
    { apply rne_div_ge; [nia|].
      destruct (Z.log2_spec q2 Hq2pos) as [Hl _].
      replace (Z.log2 q2) with (52 + e2) in Hl by lia.
      rewrite Z.pow_add_r in Hl by lia.
      pose proof (Z.mul_div_le a2 b2 Hb2) as Hm. fold q2 in Hm. nia. }
    (* the smaller one to at most [2^(53+e1)] *)
    assert (rne_div a1 (b1 * 2 ^ e1) <= 2 ^ 53) as Hsmall.
    { apply rne_div_le; [nia|].
      assert (q1 + 1 <= 2 ^ 53 * 2 ^ e1) as Hq1b.
      { destruct (Z.eq_dec q1 0) as [Hz|Hnz].
        - rewrite Hz. assert (1 <= 2 ^ 53) by (apply Z.pow_le_mono_r with (b := 0); lia || lia).
          nia.
        - destruct (Z.log2_spec q1 ltac:(lia)) as [_ Hu].
          rewrite <- Z.pow_add_r by lia.
          assert (2 ^ Z.succ (Z.log2 q1) <= 2 ^ (53 + e1)) as Hpw.
          { apply Z.pow_le_mono_r; unfold e1; lia. }
          lia. }
      pose proof (Z.mod_pos_bound a1 b1 Hb1) as Hr.
      pose proof (Z.div_mod a1 b1 ltac:(lia)) as Hdm. fold q1 in Hdm.
      nia. }
    assert (2 ^ 53 * 2 ^ e1 <= 2 ^ 52 * 2 ^ e2) as Hpw.
    { rewrite <- !Z.pow_add_r by lia. apply Z.pow_le_mono_r; lia. }
    nia.
Qed.

(** A number with a 53-bit significand is a float: rounding keeps it. *)
Lemma round_pos_repr (m e : Z) :
  0 <= m < 2 ^ 53 -> 0 <= e -> round_pos (m * 2 ^ e) 1 = m * 2 ^ e.
Proof.
  intros Hm He. unfold round_pos. rewrite Z.div_1_r, Z.mul_1_l.
  destruct (Z.eq_dec m 0) as [Hz|Hnz].
  - subst m. rewrite Z.mul_0_l. cbn. reflexivity.
  - rewrite Z.log2_mul_pow2 by lia.
    assert (Z.log2 m < 53) as Hl by (apply Z.log2_lt_pow2; lia).
    pose proof (Z.log2_nonneg m) as Hl0.
    set (e' := Z.max 0 (e + Z.log2 m - 52)).
    assert (0 <= e' <= e) as He' by (unfold e'; lia).
    replace (m * 2 ^ e) with (m * 2 ^ (e - e') * 2 ^ e').
    + rewrite rne_div_exact by (apply Z.pow_pos_nonneg; lia). reflexivity.
    + rewrite <- Z.mul_assoc, <- Z.pow_add_r by lia. f_equal. f_equal. lia.
Qed.

Lemma of_int_exact (z : Z) : 0 <= z < 2 ^ 53 -> of_int z = z * one.
Proof.
  intros Hz. unfold of_int, round.
  pose proof one_pos.
  destruct (Z.ltb_spec (z * one) 0); [nia|].
  unfold one. apply round_pos_repr; lia.
Qed.

End Float64Facts.

(** ** The float totals of a span are its whole hours and minutes, up to
    4096 hours *)

Module DurationFacts.
Import Float64 Float64Facts Time.

Lemma round_pos_nonneg (a b : Z) : 0 <= a -> 0 < b -> 0 <= round_pos a b.
Proof.
  intros Ha Hb. unfold round_pos.
  set (e := Z.max 0 (Z.log2 (a / b) - 52)).
  assert (0 < 2 ^ e) as Hp by (apply Z.pow_pos_nonneg; unfold e; lia).
  apply Z.mul_nonneg_nonneg; [|lia].
  apply rne_div_ge; nia.
Qed.

Lemma fraction_bound (U nsec : Z) :
  0 < U < 2 ^ 53 -> 0 <= nsec < U ->
  0 <= div (of_int nsec) (of_int U) <= top_fraction U.
Proof.
  intros HU Hn. pose proof one_pos as H1.
  rewrite !of_int_exact by lia.
  unfold div, round, top_fraction.
  destruct (Z.ltb_spec (U * one) 0); [nia|].
  destruct (Z.ltb_spec (nsec * one * one) 0); [nia|].
  split.
  - apply round_pos_nonneg; nia.
  - apply round_pos_mono; nia.
Qed.

(** Adding a fraction to a whole number below [2^k] does not reach the
    next whole number, provided the fraction leaves more than half a
    unit in the last place of that range. *)
Lemma add_whole_fraction (k h f top : Z) :
  0 <= k <= 53 -> 0 <= h < 2 ^ k -> 0 <= f <= top ->
  top < one -> round_pos top 1 < one ->
  2 ^ (k + 1021) < 2 * (one - top) ->
  to_int (add (h * one) f) = h.
Proof.
  intros Hk Hh Hf Htop Hrtop Hgap. pose proof one_pos as H1.
  assert (2 ^ k <= 2 ^ 53) as Hk53 by (apply Z.pow_le_mono_r; lia).
  unfold add, round. rewrite Z.div_1_r || idtac.
  destruct (Z.ltb_spec (h * one + f) 0); [nia|].
  assert (h * one <= round_pos (h * one + f) 1) as Hlo.
  { rewrite <- (round_pos_repr h 1074) at 1 by lia.
    apply round_pos_mono; unfold one in *; nia. }
  assert (round_pos (h * one + f) 1 < (h + 1) * one) as Hhi.
  { destruct (Z.eq_dec h 0) as [->|Hnz].
    - rewrite Z.mul_0_l, Z.add_0_l.
      apply Z.le_lt_trans with (m := round_pos top 1); [|lia].
      apply round_pos_mono; lia.
    - unfold round_pos. rewrite Z.div_1_r, Z.mul_1_l.
      set (L := Z.log2 h).
      assert (0 <= L < k) as HL.
      { split; [apply Z.log2_nonneg|apply Z.log2_lt_pow2; lia]. }
      destruct (Z.log2_spec h ltac:(lia)) as [Hl Hu]. fold L in Hl, Hu.
      assert (Z.log2 (h * one + f) = L + 1074) as Hlog.
      { apply Z.log2_unique; [lia|]. unfold Z.succ.
        rewrite !Z.pow_add_r by lia. fold one.
        replace (2 ^ 1) with 2 by reflexivity. unfold Z.succ in Hu.
        rewrite Z.pow_add_r in Hu by lia. replace (2 ^ 1) with 2 in Hu by reflexivity.
        nia. }
      rewrite Hlog.
      replace (Z.max 0 (L + 1074 - 52)) with (L + 1022) by lia.
      set (e := L + 1022).
      assert (0 < 2 ^ e) as Hpe by (apply Z.pow_pos_nonneg; unfold e; lia).
      assert (one = 2 ^ (52 - L) * 2 ^ e) as Hone.
      { unfold one, e. rewrite <- Z.pow_add_r by lia. f_equal. lia. }
      assert (2 ^ e <= 2 ^ (k + 1021)) as Hek
        by (apply Z.pow_le_mono_r; unfold e; lia).
      assert (rne_div (h * one + f) (2 ^ e) <= (h + 1) * 2 ^ (52 - L) - 1) as Hr.
      { apply rne_div_below_half; [assumption|].
        replace ((2 * ((h + 1) * 2 ^ (52 - L) - 1) + 1) * 2 ^ e)
          with (2 * (h + 1) * (2 ^ (52 - L) * 2 ^ e) - 2 ^ e) by ring.
        rewrite <- Hone. lia. }
      apply Z.le_lt_trans with (m := ((h + 1) * 2 ^ (52 - L) - 1) * 2 ^ e).
      + apply Z.mul_le_mono_nonneg_r; lia.
      + replace (((h + 1) * 2 ^ (52 - L) - 1) * 2 ^ e)
          with ((h + 1) * (2 ^ (52 - L) * 2 ^ e) - 2 ^ e) by ring.
        rewrite <- Hone. lia. }
  unfold to_int. rewrite Z.quot_div_nonneg by lia.
  symmetry. apply Z.div_unique with (r := round_pos (h * one + f) 1 - h * one); lia.
Qed.

Lemma top_fraction_hour :
  top_fraction 3600000000000 < one /\
  round_pos (top_fraction 3600000000000) 1 < one /\
  2 ^ (12 + 1021) < 2 * (one - top_fraction 3600000000000).
Proof. vm_compute. repeat split; reflexivity. Qed.

Lemma top_fraction_minute :
  top_fraction 60000000000 < one /\
  round_pos (top_fraction 60000000000) 1 < one /\
  2 ^ (18 + 1021) < 2 * (one - top_fraction 60000000000).
Proof. vm_compute. repeat split; reflexivity. Qed.

Lemma Hours_whole (d : Z) :
  0 <= d < 4096 * Hour -> to_int (Hours d) = d / Hour.
Proof.
  intros Hd. unfold Hours.
  assert (Hour = 3600000000000) as HH by reflexivity.
  rewrite Z.quot_div_nonneg, Z.rem_mod_nonneg by lia.
  change (60 * 60 * 1000000000) with 3600000000000.
  pose proof (Z.mod_pos_bound d Hour ltac:(lia)) as Hr.
  assert (0 <= d / Hour < 2 ^ 12) as Hq.
  { split; [apply Z.div_pos; lia|apply Z.div_lt_upper_bound; lia]. }
  destruct top_fraction_hour as (T1 & T2 & T3).
  rewrite (of_int_exact (d / Hour)) by lia.
  apply add_whole_fraction with (k := 12) (top := top_fraction 3600000000000);
    try assumption; try lia.
  apply fraction_bound; lia.
Qed.

Lemma Minutes_whole (d : Z) :
  0 <= d < 262144 * Minute -> to_int (Minutes d) = d / Minute.
Proof.
  intros Hd. unfold Minutes.
  assert (Minute = 60000000000) as HM by reflexivity.
  rewrite Z.quot_div_nonneg, Z.rem_mod_nonneg by lia.
  change (60 * 1000000000) with 60000000000.
  pose proof (Z.mod_pos_bound d Minute ltac:(lia)) as Hr.
  assert (0 <= d / Minute < 2 ^ 18) as Hq.
  { split; [apply Z.div_pos; lia|apply Z.div_lt_upper_bound; lia]. }
  destruct top_fraction_minute as (T1 & T2 & T3).
  rewrite (of_int_exact (d / Minute)) by lia.
  apply add_whole_fraction with (k := 18) (top := top_fraction 60000000000);
    try assumption; try lia.
  apply fraction_bound; lia.
Qed.

End DurationFacts.

(** ** Duration formatting *)

Module UtilsFacts.
Import Utils Time DurationFacts.

Lemma mod_mul_div (a b c : Z) :
  0 < b -> 0 < c -> (a mod (b * c)) / b = (a / b) mod c.
Proof.
  intros Hb Hc. rewrite Z.rem_mul_r by lia.
  rewrite (Z.mul_comm b), Z.div_add by lia.
  rewrite Z.div_small by (apply Z.mod_pos_bound; lia). lia.
Qed.

Lemma one_le_div (a b : Z) : 0 < b -> (1 <=? a / b) = (b <=? a).
Proof.
  intros Hb.
  destruct (Z.leb_spec b a) as [H|H]; destruct (Z.leb_spec 1 (a / b)) as [H'|H'];
    try reflexivity; exfalso.
  - assert (1 <= a / b) by (apply Z.div_le_lower_bound; lia). lia.
  - assert (a / b <= 0); [|lia].
    destruct (Z_lt_le_dec a 0) as [Hn|Hn].
    + assert (a / b < 0) by (apply Z.div_lt_upper_bound; lia). lia.
    + rewrite Z.div_small; lia.
Qed.

Lemma render_rule (u : gmap string unit) (d : Z) :
  0 <= d ->
  render u (d / Minute) (d / Hour) =
    (let days := d / Day in
     let leftoverHours := (d mod Day) / Hour in
     let leftoverMinutes := (d mod Hour) / Minute in
     if Day <=? d then
       if leftoverHours =? 0 then
         itoa days +:+ " " +:+ pluralize days (index u "day")
       else
         itoa days +:+ " " +:+ pluralize days (index u "day") +:+ " " +:+
         itoa leftoverHours +:+ " " +:+ pluralize leftoverHours (index u "hour")
     else if Hour <=? d then
       let hours := d / Hour in
       if leftoverMinutes =? 0 then
         itoa hours +:+ " " +:+ pluralize hours (index u "hour")
       else
         itoa hours +:+ " " +:+ pluralize hours (index u "hour") +:+ " " +:+
         itoa leftoverMinutes +:+ " " +:+ pluralize leftoverMinutes (index u "minute")
     else
       let minutes := d / Minute in
       itoa minutes +:+ " " +:+ pluralize minutes (index u "minute")).
Proof.
  intros Hd. unfold render, Sprintf_d_s, Sprintf_d_s_d_s. cbv zeta.
  assert (0 < Hour) as HH by reflexivity.
  assert (0 < Minute) as HM by reflexivity.
  assert (0 <= d / Hour) as Hth by (apply Z.div_pos; lia).
  assert (0 <= d / Minute) as Htm by (apply Z.div_pos; lia).
  rewrite !Z.quot_div_nonneg, !Z.rem_mod_nonneg by lia.
  assert (d / Hour / 24 = d / Day) as E1.
  { rewrite Z.div_div by lia. reflexivity. }
  assert ((d / Hour) mod 24 = (d mod Day) / Hour) as E2.
  { unfold Day. rewrite (Z.mul_comm 24). symmetry. apply mod_mul_div; lia. }
  assert ((d / Minute) mod 60 = (d mod Hour) / Minute) as E3.
  { change Hour with (Minute * 60). symmetry. apply mod_mul_div; lia. }
  rewrite E1, E2, E3.
  rewrite (one_le_div d Hour HH).
  replace (1 <=? d / Day) with (Day <=? d)
    by (symmetry; apply one_le_div; reflexivity).
  reflexivity.
Qed.

Lemma FormatDuration_negative (d lang : Z) : d < 0 -> FormatDuration d lang = "".
Proof.
  intros Hd. unfold FormatDuration.
  destruct (Z.ltb_spec d 0); [reflexivity|lia].
Qed.

Lemma FormatDuration_whole_totals (d lang : Z) :
  d < 4096 * Hour -> FormatDuration d lang = FormatDuration_rule d lang.
Proof.
  intros Hd. unfold FormatDuration, FormatDuration_rule.
  destruct (Z.ltb_spec d 0) as [|Hnn]; [reflexivity|].
  assert (Hour = 3600000000000) as HH by reflexivity.
  assert (Minute = 60000000000) as HM by reflexivity.
  cbv zeta. rewrite Hours_whole, Minutes_whole by lia.
  apply render_rule. assumption.
Qed.

(** Below 4096 hours (negative spans included) [FormatDuration] follows
    the rule of the design document -- nothing for a negative span; from
    one day on the whole days and, when not zero, the leftover hours;
    else from one hour on the whole hours and, when not zero, the
    leftover minutes; else the whole minutes, zero included -- and the
    five sample spans are rendered as documented. *)
Theorem FormatDuration_follows_rule :
  (forall d lang : Z,
      d < 4096 * Hour -> FormatDuration d lang = FormatDuration_rule d lang) /\
  (forall d lang : Z, d < 0 -> FormatDuration d lang = "") /\
  FormatDuration (90 * Minute) English = "1 hour 30 minutes" /\
  FormatDuration 0 English = "0 minutes" /\
  FormatDuration (- 5 * Minute) English = "" /\
  FormatDuration (25 * Hour) English = "1 day 1 hour" /\
  FormatDuration (24 * Hour) English = "1 day".
Proof.
  split; [exact FormatDuration_whole_totals|].
  split; [exact FormatDuration_negative|].
  repeat split; vm_compute; reflexivity.
Qed.

Lemma FormatDuration_follows_rule_witness :
  FormatDuration (90 * Minute) German = FormatDuration_rule (90 * Minute) German /\
  FormatDuration (- 1) English = "".
Proof.
  split.
  - apply (proj1 FormatDuration_follows_rule). vm_compute. reflexivity.
  - apply (proj1 (proj2 FormatDuration_follows_rule)). vm_compute. reflexivity.
Defined.

(** C9 does not hold of the code on long spans.  One nanosecond short of
    171 days, [d.Hours()] is [float64(4103) + float64(3599999999999) /
    3.6e12]; the sum lies within half a unit in the last place of 4104.0
    and rounds to it, so [totalHours] is 4104 and the code prints
    171 days, although the span holds 170 whole days and 23 leftover
    hours, which the rule (and the comment of the function: the secondary
    unit is omitted when its value is zero) asks to be shown. *)
Lemma FormatDuration_rounds_up_long_span :
  let d := 171 * Day - 1 in
  Float64.to_int (Hours d) = 4104 /\ d / Hour = 4103 /\
  FormatDuration d English = "171 days" /\
  FormatDuration_rule d English = "170 days 23 hours" /\
  FormatDuration d English <> FormatDuration_rule d English.
Proof. vm_compute. repeat split; try reflexivity. discriminate. Qed.

End UtilsFacts.

(** ** The reminder store *)

Module EventerFacts.
Import Model Config Discord DiscordSpec.

(** Unfold the plumbing of [Action]. *)
Ltac run_action :=
  cbv [mbind mret Action_bind Action_ret time_Now enqueue getPending setPending
       ChannelMessageSend];
  cbn [Pending readings outbox fst snd].

Section Eventer.

Variable cfg : ConfigDiscord.
Variable clock : nat -> Z.
Variable FormatCET : string -> Z -> string.

Let offsets := ReminderOffsets (Eventer cfg).

Lemma removeRemindersForEvent_run (eventID : string) (w : World) :
  removeRemindersForEvent eventID w =
    (tt, {| Pending := filter (fun r => EventID r ≠ eventID) (Pending w);
            readings := readings w; outbox := outbox w |}).
Proof. reflexivity. Qed.

Lemma queueOffset_run (event : GuildScheduledEvent) (o : Z) (w : World) :
  queueOffset clock event o w =
    (tt, if clock (readings w) <? remindTime event o then
           {| Pending := Pending w ++ [offsetReminder event o];
              readings := S (S (readings w)); outbox := outbox w |}
         else
           {| Pending := Pending w; readings := S (readings w); outbox := outbox w |}).
Proof.
  unfold queueOffset, Time.Before. run_action.
  fold (remindTime event o).
  destruct (clock (readings w) <? remindTime event o); reflexivity.
Qed.

(** The loop over the offsets appends to the store and touches nothing
    else but the clock. *)
Lemma offsets_loop_run (event : GuildScheduledEvent) (l : list Z) (w : World) :
  forEach l (queueOffset clock event) w =
  (tt, {| Pending := Pending w ++ (offsetsFrom clock event l (readings w)).1;
          readings := (offsetsFrom clock event l (readings w)).2;
          outbox := outbox w |}).
Proof.
  revert w. induction l as [|o l IH]; intros w; cbn [forEach offsetsFrom].
  - destruct w. cbn. rewrite app_nil_r. reflexivity.
  - unfold mbind, Action_bind. rewrite queueOffset_run.
    destruct (clock (readings w) <? remindTime event o); rewrite IH; cbn [Pending readings outbox].
    + destruct (offsetsFrom clock event l (S (S (readings w)))) as [l' n'].
      cbn. rewrite <- app_assoc. reflexivity.
    + reflexivity.
Qed.

Lemma queueReminders_run (event : GuildScheduledEvent) (w : World) :
  queueReminders cfg clock event w =
    (tt, {| Pending := Pending w ++ (derivedFrom clock offsets event (readings w)).1;
            readings := (derivedFrom clock offsets event (readings w)).2;
            outbox := outbox w |}).
Proof.
  unfold queueReminders, derivedFrom.
  unfold mbind at 1. unfold Action_bind at 1.
  rewrite offsets_loop_run. fold offsets.
  destruct (offsetsFrom clock event offsets (readings w)) as [l n'] eqn:Hl.
  unfold Time.Before. run_action.
  destruct (clock n' <? ScheduledStartTime event); run_action.
  - rewrite <- app_assoc. reflexivity.
  - reflexivity.
Qed.

Lemma reminderMessage_run (r : Reminder) (w : World) :
  exists now n,
    reminderMessage clock FormatCET r w =
      (if Now r then startsNowText r else startsAtText FormatCET r now,
       {| Pending := Pending w; readings := n; outbox := outbox w |}).
Proof.
  unfold reminderMessage. destruct w as [p n out]. destruct (Now r); run_action.
  - exists 0, n. reflexivity.
  - exists (clock n), (S n). reflexivity.
Qed.

(** The scan of the pending list: what is kept, what is sent. *)
Lemma drain_run (now : Z) (pending remaining : list Reminder) (w : World) :
  exists reqs n,
    drain cfg clock FormatCET now pending remaining w =
      (remaining ++ filter (fun r => ~ RemindAt r < now) pending,
       {| Pending := Pending w; readings := n; outbox := outbox w ++ reqs |}) /\
    Forall2 (delivers cfg FormatCET) (filter (fun r => RemindAt r < now) pending) reqs.
Proof.
  revert remaining w. induction pending as [|r pending IH]; intros remaining w.
  - exists [], (readings w). destruct w. cbn. rewrite !app_nil_r. split; constructor.
  - cbn [drain]. unfold Time.After.
    destruct (Z.ltb_spec (RemindAt r) now) as [Hdue|Hnot].
    + destruct (reminderMessage_run r w) as (t & n & Hmsg).
      unfold mbind at 1. unfold Action_bind at 1. rewrite Hmsg.
      unfold mbind at 1. unfold Action_bind at 1.
      unfold ChannelMessageSend at 1. cbn [Pending readings outbox].
      destruct (IH remaining
                  {| Pending := Pending w; readings := n;
                     outbox := outbox w ++ [ReqChannelMessageSend (ChannelIDJoinEvents cfg)
                                  (if Now r then startsNowText r else startsAtText FormatCET r t)] |})
        as (reqs & n' & Hrun & Hsent).
      rewrite Hrun. cbn [Pending readings outbox].
      eexists (_ :: reqs), n'. split.
      * rewrite filter_cons_False by tauto.
        rewrite <- app_assoc. reflexivity.
      * rewrite filter_cons_True by exact Hdue.
        constructor; [exists t; reflexivity|assumption].
    + destruct (IH (remaining ++ [r]) w) as (reqs & n' & Hrun & Hsent).
      rewrite Hrun. exists reqs, n'. split.
      * rewrite filter_cons_True by lia.
        rewrite <- app_assoc. reflexivity.
      * rewrite filter_cons_False by lia. assumption.
Qed.

Lemma reminderWorker_tick_run (w : World) :
  exists reqs n,
    reminderWorker_tick cfg clock FormatCET w =
      (tt, {| Pending := filter (fun r => ~ RemindAt r < clock (readings w)) (Pending w);
              readings := n; outbox := outbox w ++ reqs |}) /\
    Forall2 (delivers cfg FormatCET) (filter (fun r => RemindAt r < clock (readings w)) (Pending w)) reqs.
Proof.
  unfold reminderWorker_tick.
  destruct (drain_run (clock (readings w)) (Pending w) []
              {| Pending := Pending w; readings := S (readings w); outbox := outbox w |})
    as (reqs & n & Hrun & Hsent).
  exists reqs, n. split; [|assumption].
  unfold mbind at 1. unfold Action_bind at 1. unfold time_Now at 1.
  unfold mbind at 1. unfold Action_bind at 1. unfold getPending at 1.
  cbn [Pending readings outbox].
  unfold mbind at 1. unfold Action_bind at 1. rewrite Hrun.
  reflexivity.
Qed.

(** C1, as the code has it: a tick of the scheduler that reads the
    instant [now] removes from the store, and hands to the sender one
    by one and in order, exactly the pending reminders whose RemindAt is
    strictly before [now], and leaves the rest pending; so a reminder
    with RemindAt = t stays pending at every instant up to and
    including t and is drained at every later instant. *)
Theorem tick_drains_strictly_past_reminders (w : World) :
  let now := clock (readings w) in
  let w' := (reminderWorker_tick cfg clock FormatCET w).2 in
  Pending w' = filter (fun r => ~ RemindAt r < now) (Pending w) /\
  (exists reqs,
      outbox w' = outbox w ++ reqs /\
      Forall2 (delivers cfg FormatCET)
              (filter (fun r => RemindAt r < now) (Pending w)) reqs) /\
  (forall r, r ∈ Pending w ->
             (now <= RemindAt r -> r ∈ Pending w') /\
             (RemindAt r < now -> r ∉ Pending w')).
Proof.
  intros now w'.
  destruct (reminderWorker_tick_run w) as (reqs & n & Hrun & Hsent).
  subst w'. rewrite Hrun. cbn [snd Pending outbox].
  split; [reflexivity|]. split.
  - exists reqs. split; [reflexivity|exact Hsent].
  - intros r Hr. split; intros H.
    + apply list_elem_of_filter. split; [lia|assumption].
    + intros Hin. apply list_elem_of_filter in Hin as [Hnd _].
      apply Hnd. exact H.
Qed.

(** *** What [queueReminders] appends *)

Lemma offsetsFrom_sublist (event : GuildScheduledEvent) (l : list Z) (n : nat) :
  (offsetsFrom clock event l n).1 `sublist_of` (offsetReminder event <$> l).
Proof.
  revert n. induction l as [|o l IH]; intros n; cbn [offsetsFrom].
  - constructor.
  - destruct (clock n <? remindTime event o).
    + specialize (IH (S (S n))).
      destruct (offsetsFrom clock event l (S (S n))) as [l' n']. cbn in *.
      constructor. exact IH.
    + cbn. constructor. apply IH.
Qed.

Lemma offsetsFrom_readings (event : GuildScheduledEvent) (l : list Z) (n : nat) :
  exists k, (offsetsFrom clock event l n).2 = (n + k)%nat.
Proof.
  revert n. induction l as [|o l IH]; intros n; cbn [offsetsFrom].
  - exists 0%nat. cbn. lia.
  - destruct (clock n <? remindTime event o).
    + destruct (IH (S (S n))) as [k Hk].
      destruct (offsetsFrom clock event l (S (S n))) as [l' n']. cbn in *.
      exists (2 + k)%nat. lia.
    + destruct (IH (S n)) as [k Hk]. exists (1 + k)%nat. lia.
Qed.

Lemma derivedFrom_sublist (event : GuildScheduledEvent) (n : nat) :
  (derivedFrom clock offsets event n).1
    `sublist_of` ((offsetReminder event <$> offsets) ++ [immediateReminder event]).
Proof.
  unfold derivedFrom.
  pose proof (offsetsFrom_sublist event offsets n) as Hs.
  destruct (offsetsFrom clock event offsets n) as [l n']. cbn [fst] in Hs.
  destruct (clock n' <? ScheduledStartTime event); cbn [fst].
  - apply sublist_app; [exact Hs|reflexivity].
  - apply sublist_inserts_r. exact Hs.
Qed.

Lemma derivedFrom_event (event : GuildScheduledEvent) (n : nat) :
  Forall (fun r => EventID r = ev_ID event /\ StartTime r = ScheduledStartTime event)
         (derivedFrom clock offsets event n).1.
Proof.
  apply Forall_forall. intros r Hr.
  apply (sublist_subseteq _ _ (derivedFrom_sublist event n)) in Hr.
  apply elem_of_app in Hr as [Hr|Hr].
  - apply list_elem_of_fmap in Hr as (o & -> & _). split; reflexivity.
  - apply list_elem_of_singleton in Hr as ->. split; reflexivity.
Qed.

Lemma filter_all {A : Type} (P : A -> Prop) `{!forall x, Decision (P x)} (l : list A) :
  Forall P l -> filter P l = l.
Proof.
  induction 1 as [|x l Hx _ IH]; [reflexivity|].
  rewrite filter_cons_True by assumption. f_equal. exact IH.
Qed.

Lemma filter_none {A : Type} (P : A -> Prop) `{!forall x, Decision (P x)} (l : list A) :
  Forall (fun x => ~ P x) l -> filter P l = [].
Proof.
  induction 1 as [|x l Hx _ IH]; [reflexivity|].
  rewrite filter_cons_False by assumption. exact IH.
Qed.

(** C2: purging the reminders of event E and deriving them again from
    the (new) notification leaves in the store, for E, exactly the
    reminders derived now -- each carrying the new start time -- and
    none of those it held before, and leaves the reminders of every
    other event as they were.  The store [w] is arbitrary: whatever an
    earlier offset configuration and start time had left in it. *)
Theorem purge_then_requeue (w : World) (e : GuildScheduledEvent) :
  let w1 := (removeRemindersForEvent (ev_ID e) w).2 in
  let w2 := (queueReminders cfg clock e w1).2 in
  let derived :=
    Pending (queueReminders cfg clock e
               {| Pending := []; readings := readings w; outbox := outbox w |}).2 in
  Pending w2 = filter (fun r => EventID r ≠ ev_ID e) (Pending w) ++ derived /\
  filter (fun r => EventID r = ev_ID e) (Pending w2) = derived /\
  filter (fun r => EventID r ≠ ev_ID e) (Pending w2)
    = filter (fun r => EventID r ≠ ev_ID e) (Pending w) /\
  Forall (fun r => EventID r = ev_ID e /\ StartTime r = ScheduledStartTime e) derived.
Proof.
  intros w1 w2 derived. subst w1 w2 derived.
  rewrite removeRemindersForEvent_run. cbn [snd].
  rewrite !queueReminders_run. cbn [snd Pending readings outbox app].
  pose proof (derivedFrom_event e (readings w)) as Hd.
  set (d := (derivedFrom clock offsets e (readings w)).1) in *.
  set (rest := filter (fun r => EventID r ≠ ev_ID e) (Pending w)).
  assert (Forall (fun r => EventID r ≠ ev_ID e) rest) as Hrest.
  { apply Forall_forall. intros r Hr. apply list_elem_of_filter in Hr. tauto. }
  split; [reflexivity|]. split; [|split].
  - rewrite filter_app, filter_none, filter_all; [reflexivity| |].
    + eapply Forall_impl; [exact Hd|]. cbn. tauto.
    + eapply Forall_impl; [exact Hrest|]. cbn. tauto.
  - rewrite filter_app, filter_all, (filter_none _ d); [apply app_nil_r| |].
    + eapply Forall_impl; [exact Hd|]. cbn. intros r [H _]. tauto.
    + exact Hrest.
  - exact Hd.
Qed.

(** A rescheduling update is this purge followed by this derivation. *)
Lemma updateRemindersForEvent_scheduled (w : World) (e : GuildScheduledEvent) :
  ev_Status e = GuildScheduledEventStatusScheduled ->
  updateRemindersForEvent cfg clock e w =
    queueReminders cfg clock e (removeRemindersForEvent (ev_ID e) w).2.
Proof.
  intros Hs. unfold updateRemindersForEvent. rewrite Hs. reflexivity.
Qed.

Lemma updateRemindersForEvent_other_status (w : World) (e : GuildScheduledEvent) :
  ev_Status e ≠ GuildScheduledEventStatusScheduled ->
  updateRemindersForEvent cfg clock e w = (tt, w).
Proof.
  intros Hs. unfold updateRemindersForEvent.
  destruct (Z.eqb_spec (ev_Status e) GuildScheduledEventStatusScheduled); [tauto|].
  reflexivity.
Qed.

(** *** Derivation at one instant *)

Lemma offsetsFrom_frozen (event : GuildScheduledEvent) (l : list Z) (n : nat) (now : Z) :
  (forall k, clock (n + k) = now) ->
  (offsetsFrom clock event l n).1
    = offsetReminder event <$> filter (fun o => now < remindTime event o) l.
Proof.
  revert n. induction l as [|o l IH]; intros n Hclock; cbn [offsetsFrom].
  - reflexivity.
  - pose proof (Hclock 0%nat) as H0. rewrite Nat.add_0_r in H0. rewrite H0.
    destruct (Z.ltb_spec now (remindTime event o)) as [Hlt|Hge].
    + rewrite filter_cons_True by exact Hlt.
      specialize (IH (S (S n))).
      destruct (offsetsFrom clock event l (S (S n))) as [l' n']. cbn [fst] in *.
      rewrite fmap_cons. f_equal. apply IH.
      intros k. replace (S (S n) + k)%nat with (n + (2 + k))%nat by lia. apply Hclock.
    + rewrite filter_cons_False by lia. apply IH.
      intros k. replace (S n + k)%nat with (n + (1 + k))%nat by lia. apply Hclock.
Qed.

Lemma remindTime_minus (event : GuildScheduledEvent) (o : Z) :
  Int64.min_value < o <= Int64.max_value ->
  remindTime event o = ScheduledStartTime event - o.
Proof.
  intros Ho. unfold remindTime, Time.Add. rewrite Int64Facts.neg_opp by exact Ho. lia.
Qed.

(** C6: when [queueReminders] runs at the instant [now], it appends to
    the store, for each configured offset [o] in turn, the non-immediate
    reminder at ScheduledStartTime - o exactly when that instant is
    strictly after [now] -- the other offsets are skipped -- and then
    the one immediate reminder at ScheduledStartTime exactly when the
    start is strictly after [now].  The instant for [o] is the one the
    code computes, [ScheduledStartTime.Add(-o)]; it is
    ScheduledStartTime - o for every Duration but the least one, whose
    negation wraps around. *)
Theorem queueReminders_reminder_set (w : World) (e : GuildScheduledEvent) (now : Z) :
  (forall k, clock (readings w + k) = now) ->
  Pending (queueReminders cfg clock e w).2
    = Pending w ++
      (offsetReminder e <$> filter (fun o => now < remindTime e o) offsets) ++
      (if bool_decide (now < ScheduledStartTime e) then [immediateReminder e] else []) /\
  Pending (queueReminders cfg clock e w).2 = Pending w ++ reminderSet offsets now e /\
  (forall o, Int64.min_value < o <= Int64.max_value ->
             RemindAt (offsetReminder e o) = ScheduledStartTime e - o) /\
  RemindAt (immediateReminder e) = ScheduledStartTime e /\
  Now (immediateReminder e) = true /\
  (forall o, Now (offsetReminder e o) = false).
Proof.
  intros Hclock.
  assert (Pending (queueReminders cfg clock e w).2 = Pending w ++ reminderSet offsets now e)
    as Hset.
  { rewrite queueReminders_run. cbn [snd Pending]. f_equal.
    unfold derivedFrom, reminderSet.
    pose proof (offsetsFrom_frozen e offsets (readings w) now Hclock) as Hl.
    destruct (offsetsFrom_readings e offsets (readings w)) as [k Hk].
    destruct (offsetsFrom clock e offsets (readings w)) as [l n']. cbn [fst snd] in *.
    subst n'. rewrite Hclock, Hl.
    destruct (Z.ltb_spec now (ScheduledStartTime e)).
    - rewrite bool_decide_eq_true_2 by assumption. reflexivity.
    - rewrite bool_decide_eq_false_2 by lia. cbn. rewrite app_nil_r. reflexivity. }
  split; [exact Hset|]. split; [exact Hset|].
  split; [intros o Ho; apply remindTime_minus; exact Ho|].
  repeat split.
Qed.

(** *** Uniqueness of (EventID, RemindAt) *)

Lemma key_offsets_NoDup (event : GuildScheduledEvent) :
  distinct_offsets offsets ->
  NoDup (key <$> ((offsetReminder event <$> offsets) ++ [immediateReminder event])).
Proof.
  intros (Hrange & Hnd & Hz).
  rewrite fmap_app, <- list_fmap_compose. cbn [fmap list_fmap].
  apply NoDup_app. split; [|split].
  - apply NoDup_fmap_2_strong; [|exact Hnd].
    intros o1 o2 H1 H2 Heq. unfold key, compose in Heq. cbn in Heq.
    unfold remindTime, Time.Add in Heq.
    rewrite Forall_forall in Hrange.
    apply Int64Facts.neg_inj; [apply Hrange; exact H1|apply Hrange; exact H2|].
    injection Heq as Heq. lia.
  - intros k Hk Hk'. apply list_elem_of_singleton in Hk'. subst k.
    apply list_elem_of_fmap in Hk as (o & Heq & Ho).
    unfold key, compose in Heq. cbn in Heq. unfold remindTime, Time.Add in Heq.
    injection Heq as Heq.
    rewrite Forall_forall in Hrange.
    assert (o = 0) as ->.
    { apply Int64Facts.neg_eq_0; [apply Hrange; exact Ho|lia]. }
    tauto.
  - apply NoDup_singleton.
Qed.

Lemma derivedFrom_unique (event : GuildScheduledEvent) (n : nat) :
  distinct_offsets offsets ->
  NoDup (key <$> (derivedFrom clock offsets event n).1).
Proof.
  intros Hd. eapply sublist_NoDup; [apply (key_offsets_NoDup event Hd)|].
  apply fmap_sublist, derivedFrom_sublist.
Qed.

Lemma queueReminders_unique (event : GuildScheduledEvent) (w : World) :
  distinct_offsets offsets ->
  unique_reminders w -> ~ pendingFor w (ev_ID event) ->
  unique_reminders (queueReminders cfg clock event w).2.
Proof.
  intros Hd Hu Hnew. unfold unique_reminders in *.
  rewrite queueReminders_run. cbn [snd Pending]. rewrite fmap_app.
  apply NoDup_app. split; [exact Hu|]. split; [|apply derivedFrom_unique; exact Hd].
  intros k Hk Hk'.
  apply list_elem_of_fmap in Hk as (r & -> & Hr).
  apply list_elem_of_fmap in Hk' as (r' & Heq & Hr').
  pose proof (derivedFrom_event event (readings w)) as He.
  rewrite Forall_forall in He. destruct (He r' Hr') as [Hid _].
  apply Hnew. exists r. split; [exact Hr|].
  unfold key in Heq. injection Heq as Heq _. congruence.
Qed.

Lemma queueReminders_pendingFor (event : GuildScheduledEvent) (w : World) (id : string) :
  pendingFor (queueReminders cfg clock event w).2 id ->
  pendingFor w id \/ id = ev_ID event.
Proof.
  rewrite queueReminders_run. cbn [snd]. intros (r & Hr & Hid). cbn [Pending] in Hr.
  apply elem_of_app in Hr as [Hr|Hr].
  - left. exists r. tauto.
  - right. pose proof (derivedFrom_event event (readings w)) as He.
    rewrite Forall_forall in He. destruct (He r Hr) as [Hid' _]. congruence.
Qed.

Lemma events_loop_unique (events : list GuildScheduledEvent) (w : World) :
  distinct_offsets offsets ->
  NoDup (ev_ID <$> events) ->
  (forall e, e ∈ events -> ~ pendingFor w (ev_ID e)) ->
  unique_reminders w ->
  unique_reminders (forEach events (queueReminders cfg clock) w).2.
Proof.
  intros Hd. revert w. induction events as [|e events IH]; intros w Hnd Hnew Hu.
  - exact Hu.
  - cbn [forEach]. unfold mbind, Action_bind.
    destruct (queueReminders cfg clock e w) as [[] w1] eqn:Hq.
    assert (w1 = (queueReminders cfg clock e w).2) as Hw1 by (rewrite Hq; reflexivity).
    rewrite fmap_cons in Hnd. apply NoDup_cons in Hnd as [Hhd Hnd].
    apply IH; [exact Hnd| |].
    + intros e' He' Hp. rewrite Hw1 in Hp.
      apply queueReminders_pendingFor in Hp as [Hp| Hp].
      * apply (Hnew e'); [right; exact He'|exact Hp].
      * apply Hhd. rewrite <- Hp. apply list_elem_of_fmap. exists e'. tauto.
    + rewrite Hw1. apply queueReminders_unique; [exact Hd|exact Hu|].
      apply Hnew. left.
Qed.

Lemma forEach_app {A : Type} (l1 l2 : list A) (body : A -> Action ()) (w : World) :
  forEach (l1 ++ l2) body w = forEach l2 body (forEach l1 body w).2.
Proof.
  revert w. induction l1 as [|x l1 IH]; intros w; cbn [forEach app].
  - reflexivity.
  - unfold mbind, Action_bind. destruct (body x w) as [[] w1]. apply IH.
Qed.

Lemma syncExistingEvents_run
    (guilds : list (list GuildScheduledEvent + error)) (w : World) :
  syncExistingEvents cfg clock guilds w
    = forEach (reconciled guilds) (queueReminders cfg clock) w.
Proof.
  unfold syncExistingEvents, reconciled.
  revert w. induction guilds as [|g guilds IH]; intros w; cbn [forEach omap].
  - reflexivity.
  - unfold mbind, Action_bind. destruct g as [events|err].
    + cbn [concat list_omap omap]. rewrite forEach_app.
      destruct (forEach events (queueReminders cfg clock) w) as [[] w1]. apply IH.
    + cbn. apply IH.
Qed.

Lemma handle_unique (i : Input) (w : World) :
  distinct_offsets offsets ->
  announces_new i w -> unique_reminders w ->
  unique_reminders (handle cfg clock FormatCET i w).2.
Proof.
  intros Hd Hok Hu. destruct i as [e|e|guilds|]; cbn [handle announces_new] in *.
  - unfold createRemindersForEvent, mbind, Action_bind, ChannelMessageSend.
    apply queueReminders_unique; [exact Hd|exact Hu|].
    intros (r & Hr & Hid). apply Hok. exists r. tauto.
  - destruct (Z.eq_dec (ev_Status e) GuildScheduledEventStatusScheduled) as [Hs|Hs].
    + rewrite updateRemindersForEvent_scheduled by exact Hs.
      rewrite removeRemindersForEvent_run. cbn [snd].
      apply queueReminders_unique; [exact Hd| |].
      * unfold unique_reminders in *. cbn [Pending].
        eapply sublist_NoDup; [exact Hu|]. apply fmap_sublist, sublist_filter.
      * intros (r & Hr & Hid). cbn [Pending] in Hr.
        apply list_elem_of_filter in Hr. tauto.
    + rewrite updateRemindersForEvent_other_status by exact Hs. exact Hu.
  - rewrite syncExistingEvents_run. destruct Hok as [Hnd Hnew].
    apply events_loop_unique; assumption.
  - destruct (reminderWorker_tick_run w) as (reqs & n & Hrun & _).
    rewrite Hrun. unfold unique_reminders in *. cbn [snd Pending].
    eapply sublist_NoDup; [exact Hu|]. apply fmap_sublist, sublist_filter.
Qed.


End Eventer.

Lemma queueReminders_reminder_set_witness :
  Pending (queueReminders (sampleConfig [24 * Time.Hour; 2 * Time.Hour; 15 * Time.Minute])
                          (fun _ => 0) sampleEvent emptyWorld).2
    = Pending emptyWorld ++
      reminderSet [24 * Time.Hour; 2 * Time.Hour; 15 * Time.Minute] 0 sampleEvent.
Proof.
  apply (queueReminders_reminder_set
           (sampleConfig [24 * Time.Hour; 2 * Time.Hour; 15 * Time.Minute])
           (fun _ => 0) emptyWorld sampleEvent 0).
  intros k. reflexivity.
Defined.



(** C1 as worded fails at the instant RemindAt itself: a tick that reads
    exactly that instant sends nothing and leaves the reminder pending,
    though RemindAt <= now. *)
Lemma tick_at_RemindAt_keeps_reminder :
  let r := immediateReminder sampleEvent in
  let now := RemindAt r in
  let w := {| Pending := [r]; readings := 0; outbox := [] |} in
  let w' := (reminderWorker_tick (sampleConfig []) (fun _ => now) noFormat w).2 in
  RemindAt r <= now /\ Pending w' = [r] /\ outbox w' = [].
Proof. vm_compute. repeat split. discriminate. Qed.

End EventerFacts.

(** ** Presence reconciliation *)

Module PresenceFacts.
Import Model Config Discord DiscordSpec.

Lemma rangeInOrder_valid : valid_range rangeInOrder.
Proof. intros V m. reflexivity. Qed.

Lemma rangeReversed_valid : valid_range rangeReversed.
Proof. intros V m. unfold rangeReversed. apply reverse_Permutation. Qed.

Lemma inOrder_valid : valid_ranges inOrder.
Proof. repeat split; apply rangeInOrder_valid. Qed.

Lemma reversed_valid : valid_ranges reversed.
Proof. repeat split; apply rangeReversed_valid. Qed.

Lemma elem_of_range {V : Type} (range : Ranger) (m : gmap string V) (k : string) (v : V) :
  valid_range range -> (k, v) ∈ range V m <-> m !! k = Some v.
Proof.
  intros Hv. rewrite (Hv V m). apply elem_of_map_to_list.
Qed.

Lemma NoDup_range_keys {V : Type} (range : Ranger) (m : gmap string V) :
  valid_range range -> NoDup (range V m).*1.
Proof.
  intros Hv. rewrite (Hv V m). apply NoDup_fst_map_to_list.
Qed.

(** *** The index player -> server *)

Lemma players_loop_lookup (server : string) (players : list string)
    (idx : gmap string string) (p : string) :
  foldl (fun idx player => <[player := server]> idx) idx players !! p
    = if decide (p ∈ players) then Some server else idx !! p.
Proof.
  revert idx. induction players as [|q players IH]; intros idx; cbn [foldl].
  - destruct (decide (p ∈ [])) as [H|_]; [inversion H|reflexivity].
  - rewrite IH. destruct (decide (p ∈ players)) as [Hin|Hnin].
    + rewrite decide_True by (right; exact Hin). reflexivity.
    + destruct (decide (p = q)) as [->|Hne].
      * rewrite decide_True by left. apply lookup_insert_eq.
      * rewrite decide_False by (intros H; apply elem_of_cons in H; tauto).
        apply lookup_insert_ne. congruence.
Qed.

Lemma servers_loop_lookup_Some (l : list (string * ServerInfo))
    (idx : gmap string string) (p s : string) :
  foldl (fun idx '(server, info) =>
           foldl (fun idx player => <[player := server]> idx) idx (Players info))
        idx l !! p = Some s ->
  idx !! p = Some s \/ exists info, (s, info) ∈ l /\ p ∈ Players info.
Proof.
  revert idx. induction l as [|[server info] l IH]; intros idx; cbn [foldl].
  - tauto.
  - intros H. apply IH in H as [H|(info' & Hin & Hp)].
    + rewrite players_loop_lookup in H.
      destruct (decide (p ∈ Players info)) as [Hp|Hp].
      * injection H as ->. right. exists info. split; [left|exact Hp].
      * left. exact H.
    + right. exists info'. split; [right; exact Hin|exact Hp].
Qed.

Lemma servers_loop_lookup_is_Some (l : list (string * ServerInfo))
    (idx : gmap string string) (p : string) :
  is_Some (idx !! p) \/ (exists s info, (s, info) ∈ l /\ p ∈ Players info) ->
  is_Some (foldl (fun idx '(server, info) =>
                    foldl (fun idx player => <[player := server]> idx) idx (Players info))
                 idx l !! p).
Proof.
  revert idx. induction l as [|[server info] l IH]; intros idx; cbn [foldl].
  - intros [H|(s & info & Hin & _)]; [exact H|inversion Hin].
  - intros H. apply IH.
    destruct (decide (p ∈ Players info)) as [Hp|Hp].
    + left. rewrite players_loop_lookup, decide_True by exact Hp. eauto.
    + destruct H as [H|(s & info' & Hin & Hp')].
      * left. rewrite players_loop_lookup, decide_False by exact Hp. exact H.
      * apply elem_of_cons in Hin as [Heq|Hin].
        -- injection Heq as -> ->. tauto.
        -- right. eauto.
Qed.

Lemma playerServer_listed (range : Ranger) (gen : gmap string ServerInfo) (p s : string) :
  valid_range range -> playerServer range gen !! p = Some s -> listed gen p s.
Proof.
  intros Hv H. unfold playerServer in H.
  apply servers_loop_lookup_Some in H as [H|(info & Hin & Hp)].
  - rewrite lookup_empty in H. discriminate.
  - exists info. split; [|exact Hp]. apply (elem_of_range range); assumption.
Qed.

Lemma playerServer_is_Some (range : Ranger) (gen : gmap string ServerInfo) (p s : string) :
  valid_range range -> listed gen p s -> is_Some (playerServer range gen !! p).
Proof.
  intros Hv (info & Hs & Hp). unfold playerServer.
  apply servers_loop_lookup_is_Some. right. exists s, info.
  split; [|exact Hp]. apply (elem_of_range range); assumption.
Qed.

(** The index built for [lastInfos], [nil] included. *)
Lemma prev_listed (range : Ranger) (last : option (gmap string ServerInfo)) (p s : string) :
  valid_range range ->
  match last with Some l => playerServer range l | None => ∅ end !! p = Some s ->
  listed (generation last) p s.
Proof.
  intros Hv. destruct last as [l|]; cbn.
  - apply playerServer_listed. exact Hv.
  - rewrite lookup_empty. discriminate.
Qed.

Lemma prev_is_Some (range : Ranger) (last : option (gmap string ServerInfo)) (p s : string) :
  valid_range range -> listed (generation last) p s ->
  is_Some (match last with Some l => playerServer range l | None => ∅ end !! p).
Proof.
  intros Hv. destruct last as [l|]; cbn.
  - apply playerServer_is_Some. exact Hv.
  - intros (info & H & _). rewrite lookup_empty in H. discriminate.
Qed.

(** An index is determined by who is listed where, when nobody is
    listed twice. *)
Lemma index_determined (i i' : gmap string string) (gen gen' : gmap string ServerInfo) :
  (forall p s, i !! p = Some s -> listed gen p s) ->
  (forall p s, listed gen p s -> is_Some (i !! p)) ->
  (forall p s, i' !! p = Some s -> listed gen' p s) ->
  (forall p s, listed gen' p s -> is_Some (i' !! p)) ->
  same_presence gen gen' -> single_server gen ->
  i = i'.
Proof.
  intros H1 H2 H1' H2' Hsame Hsingle. apply map_eq. intros p.
  destruct (i !! p) as [s|] eqn:E; destruct (i' !! p) as [s'|] eqn:E'.
  - f_equal. apply (Hsingle p); [apply H1; exact E|].
    apply Hsame, H1'. exact E'.
  - apply H1, Hsame, H2' in E. rewrite E' in E. destruct E as [? E]. discriminate.
  - apply H1', Hsame, H2 in E'. rewrite E in E'. destruct E' as [? E']. discriminate.
  - reflexivity.
Qed.

Lemma index_lookup_single (i : gmap string string) (gen : gmap string ServerInfo)
    (p s : string) :
  (forall p s, i !! p = Some s -> listed gen p s) ->
  (forall p s, listed gen p s -> is_Some (i !! p)) ->
  listed gen p s -> (forall s', listed gen p s' -> s' = s) ->
  i !! p = Some s.
Proof.
  intros H1 H2 Hl Hs. destruct (H2 p s Hl) as [s' E].
  rewrite E. f_equal. apply Hs, H1. exact E.
Qed.

(** *** Notifications about one player *)

Lemma about_player_omap (f : string * string -> option Notification)
    (l : list (string * string)) (p v : string) :
  (forall q w n, f (q, w) = Some n -> subject n = q) ->
  NoDup l.*1 -> (p, v) ∈ l ->
  filter (fun n => subject n = p) (omap f l)
    = match f (p, v) with Some n => [n] | None => [] end.
Proof.
  intros Hf. induction l as [|[q w] l IH]; intros Hnd Hin.
  - inversion Hin.
  - rewrite fmap_cons in Hnd. apply NoDup_cons in Hnd as [Hq Hnd]. cbn [fst] in Hq.
    assert (forall l', p ∉ l'.*1 -> filter (fun n => subject n = p) (omap f l') = []) as Habs.
    { clear -Hf. induction l' as [|[q w] l' IH]; intros Hp; [reflexivity|].
      cbn [omap list_omap]. rewrite fmap_cons in Hp. cbn [fst] in Hp.
      assert (p ≠ q) by (intros ->; apply Hp; left).
      assert (p ∉ l'.*1) by (intros H'; apply Hp; right; exact H').
      destruct (f (q, w)) as [n|] eqn:E; [|apply IH; assumption].
      rewrite filter_cons_False; [apply IH; assumption|].
      rewrite (Hf _ _ _ E). congruence. }
    apply elem_of_cons in Hin as [Heq|Hin].
    + injection Heq as <- <-. cbn [omap list_omap].
      destruct (f (p, v)) as [n|] eqn:E.
      * rewrite filter_cons_True by (apply (Hf _ _ _ E)).
        rewrite Habs by exact Hq. reflexivity.
      * apply Habs. exact Hq.
    + assert (p ≠ q).
      { intros ->. apply Hq. apply list_elem_of_fmap. exists (q, v). tauto. }
      cbn [omap list_omap]. destruct (f (q, w)) as [n|] eqn:E; [|apply IH; assumption].
      rewrite filter_cons_False; [apply IH; assumption|].
      rewrite (Hf _ _ _ E). congruence.
Qed.

(** C7, as the code has it: a player listed on server A, and on no other
    server, in the previous generation and on a different server B, and
    on no other server, in the current one gets exactly one notification
    in that cycle: the move from A to B -- no join and no leave. *)
Theorem server_change_is_one_move (rs : Ranges)
    (last ifos : gmap string ServerInfo) (p A B : string) :
  valid_ranges rs ->
  listed last p A -> (forall s, listed last p s -> s = A) ->
  listed ifos p B -> (forall s, listed ifos p s -> s = B) ->
  A ≠ B ->
  filter (fun n => subject n = p) (presenceDiff rs (Some last) ifos)
    = [MoveMessage p A B].
Proof.
  intros (HvL & HvI & HvC & HvP) HA HonlyA HB HonlyB Hne.
  unfold presenceDiff.
  set (prev := playerServer (rangeLast rs) last).
  set (curr := playerServer (rangeIfos rs) ifos).
  assert (prev !! p = Some A) as Hprev.
  { apply (index_lookup_single prev last); try assumption.
    - intros q s. apply playerServer_listed. exact HvL.
    - intros q s. apply playerServer_is_Some. exact HvL. }
  assert (curr !! p = Some B) as Hcurr.
  { apply (index_lookup_single curr ifos); try assumption.
    - intros q s. apply playerServer_listed. exact HvI.
    - intros q s. apply playerServer_is_Some. exact HvI. }
  rewrite filter_app.
  rewrite (about_player_omap _ _ p B).
  - rewrite (about_player_omap _ _ p A).
    + rewrite Hprev, Hcurr. rewrite decide_False by exact Hne. reflexivity.
    + intros q w n. destruct (curr !! q); [discriminate|].
      intros [= <-]. reflexivity.
    + apply NoDup_range_keys. exact HvP.
    + apply (elem_of_range (rangePrev rs)); assumption.
  - intros q w n. destruct (prev !! q) as [old|].
    + destruct (decide (old = w)); [discriminate|]. intros [= <-]. reflexivity.
    + intros [= <-]. reflexivity.
  - apply NoDup_range_keys. exact HvC.
  - apply (elem_of_range (rangeCurr rs)); assumption.
Qed.


Lemma listed_oneServer : listed oneServer "p" "A".
Proof. exists (serverWith "A" ["p"]). split; [reflexivity|left]. Qed.

Lemma listed_oneServer_only (s : string) : listed oneServer "p" s -> s = "A".
Proof.
  intros (info & H & _). unfold oneServer in H.
  destruct (decide (s = "A")) as [|Hne]; [assumption|].
  rewrite lookup_insert_ne, lookup_empty in H by congruence. discriminate.
Qed.

Lemma listed_twoServers_B : listed twoServers "p" "B".
Proof. exists (serverWith "B" ["p"]). split; [reflexivity|left]. Qed.

Lemma server_change_is_one_move_witness :
  filter (fun n => subject n = "p")
         (presenceDiff inOrder (Some oneServer) (<["B" := serverWith "B" ["p"]]> ∅))
    = [MoveMessage "p" "A" "B"].
Proof.
  apply server_change_is_one_move.
  - exact inOrder_valid.
  - exact listed_oneServer.
  - exact listed_oneServer_only.
  - exists (serverWith "B" ["p"]). split; [reflexivity|left].
  - intros s (info & H & _).
    destruct (decide (s = "B")) as [|Hne]; [assumption|].
    rewrite lookup_insert_ne, lookup_empty in H by congruence. discriminate.
  - discriminate.
Defined.

Lemma single_server_oneServer : single_server oneServer.
Proof.
  intros p s1 s2 H1 H2.
  assert (forall s, listed oneServer p s -> s = "A") as Hs.
  { intros s (info & H & _). unfold oneServer in H.
    destruct (decide (s = "A")) as [|Hne]; [assumption|].
    rewrite lookup_insert_ne, lookup_empty in H by congruence. discriminate. }
  rewrite (Hs s1 H1), (Hs s2 H2). reflexivity.
Qed.


(** C7 as worded fails when the player is also still listed on A in the
    current generation: if the runtime yields B before A, the index keeps
    A and no move is notified. *)
Lemma listed_on_both_servers_no_move :
  valid_ranges reversed /\
  listed oneServer "p" "A" /\ listed twoServers "p" "B" /\ "A" ≠ "B" /\
  presenceDiff reversed (Some oneServer) twoServers = [].
Proof.
  split; [exact reversed_valid|].
  split; [exact listed_oneServer|]. split; [exact listed_twoServers_B|].
  split; [discriminate|]. vm_compute. reflexivity.
Qed.


End PresenceFacts.

(** ** The status message *)

Module PublisherFacts.
Import Model Config Discord DiscordSpec.

Lemma embedFor_unreachable (serverName : string) (serverInfo : ServerInfo) :
  Reachable serverInfo = false ->
  embedFor serverName serverInfo
    = {| Title := serverName; Description := "Server unreachable"; Color := 0xc1121f |}.
Proof. intros H. unfold embedFor. rewrite H. reflexivity. Qed.

Lemma Title_embedFor (serverName : string) (serverInfo : ServerInfo) :
  Title (embedFor serverName serverInfo) = serverName.
Proof. unfold embedFor. destruct (Reachable serverInfo); reflexivity. Qed.

Lemma elem_of_payload (range : Ranger) (m : gmap string ServerInfo) (e : MessageEmbed) :
  valid_range range ->
  e ∈ ms_Embeds (payloadFor range m)
  <-> exists s info, m !! s = Some info /\ e = embedFor s info.
Proof.
  intros Hv. unfold payloadFor. cbn [ms_Embeds].
  rewrite list_elem_of_omap. split.
  - intros (s & _ & H). destruct (m !! s) as [info|] eqn:E; [|discriminate].
    injection H as <-. eauto.
  - intros (s & info & Hs & ->). exists s. split; [|rewrite Hs; reflexivity].
    unfold sort_Strings. rewrite merge_sort_Permutation.
    apply list_elem_of_fmap. exists (s, info). split; [reflexivity|].
    apply (PresenceFacts.elem_of_range range); assumption.
Qed.

Lemma bullets_start_with_dash (players : list string) :
  players ≠ [] ->
  exists rest, Join ((fun player => "- " +:+ player) <$> players) LF = "-" +:+ rest.
Proof.
  destruct players as [|p [|q players]]; intros H; [congruence| |];
    eexists; cbn; reflexivity.
Qed.

(** C10: in the status payload an unreachable server is shown by the
    unreachable marker in red whatever its player list holds: its block
    is in the payload, every block under its name is that block, and the
    marker is neither the bulleted player list nor the no-players
    marker. *)
Theorem unreachable_takes_precedence (range : Ranger) (m : gmap string ServerInfo)
    (s : string) (info : ServerInfo) :
  valid_range range -> m !! s = Some info -> Reachable info = false ->
  let block := {| Title := s; Description := "Server unreachable"; Color := 0xc1121f |} in
  block ∈ ms_Embeds (payloadFor range m) /\
  (forall e, e ∈ ms_Embeds (payloadFor range m) -> Title e = s -> e = block) /\
  Description block ≠ "No players online" /\
  (Players info ≠ [] ->
   Description block ≠ Join ((fun player => "- " +:+ player) <$> Players info) LF) /\
  Color block ≠ 0x57F287.
Proof.
  intros Hv Hs Hr block. split; [|split; [|split; [|split]]].
  - apply (elem_of_payload range); [exact Hv|].
    exists s, info. split; [exact Hs|]. symmetry. apply embedFor_unreachable. exact Hr.
  - intros e He Ht. apply (elem_of_payload range) in He as (s' & info' & Hs' & ->); [|exact Hv].
    rewrite Title_embedFor in Ht. subst s'.
    rewrite Hs in Hs'. injection Hs' as <-. apply embedFor_unreachable. exact Hr.
  - discriminate.
  - intros Hp. destruct (bullets_start_with_dash (Players info) Hp) as [rest ->].
    cbn. discriminate.
  - discriminate.
Qed.

Lemma unreachable_takes_precedence_witness :
  {| Title := "A"; Description := "Server unreachable"; Color := 0xc1121f |}
    ∈ ms_Embeds (payloadFor rangeInOrder
                   (<["A" := {| Name := "A"; Players := ["p"]; Reachable := false |}]> ∅)).
Proof.
  apply (unreachable_takes_precedence rangeInOrder _ "A"
           {| Name := "A"; Players := ["p"]; Reachable := false |}).
  - exact PresenceFacts.rangeInOrder_valid.
  - reflexivity.
  - reflexivity.
Defined.

Section Configured.

Variable cfg : ConfigDiscord.

Lemma known_identifier (id : string) : id ≠ "" -> (0 <? String.length id)%nat = true.
Proof. destruct id; [congruence|reflexivity]. Qed.

Lemma find_first {A : Type} (f : A -> bool) (before after : list A) (x : A) :
  Forall (fun y => f y = false) before -> f x = true ->
  List.find f (before ++ x :: after) = Some x.
Proof.
  induction 1 as [|y before Hy _ IH]; intros Hx; cbn.
  - rewrite Hx. reflexivity.
  - rewrite Hy. apply IH. exact Hx.
Qed.

Lemma updatePlayerList_found (bot : DiscordBot) (range : Ranger) (id : string)
    (infos : gmap string ServerInfo) (reqs : list Request) (m : Message) :
  fetchExistingMessage cfg bot id = (reqs, (Some m, None)) ->
  exists rest res,
    updatePlayerList cfg bot range id infos =
      (reqs ++
       ReqChannelMessageEditComplex
         {| me_ID := m_ID m;
            me_Channel := ChannelIDStatus cfg;
            me_Content := ms_Content (payloadFor range infos);
            me_Embeds := ms_Embeds (payloadFor range infos) |} :: rest, res).
Proof.
  intros Hf. unfold updatePlayerList. rewrite Hf.
  destruct (ChannelMessageEditComplex _ _) as [m'|err].
  - destruct (PinPlayerList cfg).
    + destruct (ChannelMessagePin _ _ _); eexists _, _;
        rewrite <- app_assoc; reflexivity.
    + eexists [], _. reflexivity.
  - eexists [], _. reflexivity.
Qed.

(** C4, as the code has it: with a known identifier the publisher
    fetches that message and asks for nothing else; when the fetch
    succeeds it edits the fetched message, and when the fetch fails it
    returns that failure and an empty identifier without searching or
    editing.  With no identifier it asks for the 100 most recent
    messages of the channel and edits the first one authored by the bot
    whose text holds the title marker. *)
Theorem known_identifier_is_fetched_unknown_is_searched (bot : DiscordBot)
    (range : Ranger) (id : string) (infos : gmap string ServerInfo) :
  let ch := ChannelIDStatus cfg in
  let edit (m : Message) :=
    ReqChannelMessageEditComplex
      {| me_ID := m_ID m;
         me_Channel := ch;
         me_Content := ms_Content (payloadFor range infos);
         me_Embeds := ms_Embeds (payloadFor range infos) |} in
  (id ≠ "" -> (fetchExistingMessage cfg bot id).1 = [ReqChannelMessage ch id]) /\
  (forall m, id ≠ "" -> ChannelMessage (session bot) ch id = inl m ->
     exists rest res,
       updatePlayerList cfg bot range id infos
         = (ReqChannelMessage ch id :: edit m :: rest, res)) /\
  (forall err, id ≠ "" -> ChannelMessage (session bot) ch id = inr err ->
     updatePlayerList cfg bot range id infos
       = ([ReqChannelMessage ch id], ("", Some (Errorf "fetchExistingMessage: " err)))) /\
  (forall before m after, id = "" ->
     ChannelMessages (session bot) ch 100 = inl (before ++ m :: after) ->
     Forall (fun x => isStatusMessage bot x = false) before ->
     isStatusMessage bot m = true ->
     exists rest res,
       updatePlayerList cfg bot range id infos
         = (ReqChannelMessages ch 100 :: edit m :: rest, res)).
Proof.
  intros ch edit. split; [|split; [|split]].
  - intros Hid. unfold fetchExistingMessage. rewrite known_identifier by exact Hid.
    reflexivity.
  - intros m Hid Hm.
    destruct (updatePlayerList_found bot range id infos [ReqChannelMessage ch id] m)
      as (rest & res & H).
    { unfold fetchExistingMessage. rewrite known_identifier by exact Hid.
      fold ch. rewrite Hm. reflexivity. }
    exists rest, res. exact H.
  - intros err Hid Herr. unfold updatePlayerList, fetchExistingMessage.
    rewrite known_identifier by exact Hid. fold ch. rewrite Herr. reflexivity.
  - intros before m after -> Hmsgs Hbefore Hm.
    destruct (updatePlayerList_found bot range "" infos [ReqChannelMessages ch 100] m)
      as (rest & res & H).
    { unfold fetchExistingMessage. cbn [String.length Nat.ltb Nat.leb].
      fold ch. rewrite Hmsgs. rewrite find_first by assumption. reflexivity. }
    exists rest, res. exact H.
Qed.

(** After a failed fetch [Start] keeps the empty identifier, so the
    next turn of its loop begins with the search. *)
Lemma failed_fetch_next_cycle_searches (range : Ranger) (rs : Ranges) (st : Serving)
    (ifos ifos' : gmap string ServerInfo) (err : error) :
  existingMessageId st ≠ "" ->
  ChannelMessage (session (bot st)) (ChannelIDStatus cfg) (existingMessageId st) = inr err ->
  let st' := (Start_cycle cfg range rs st ifos).2 in
  existingMessageId st' = "" /\
  (fetchExistingMessage cfg (bot st') (existingMessageId st')).1
    = [ReqChannelMessages (ChannelIDStatus cfg) 100].
Proof.
  intros Hid Herr. unfold Start_cycle, updatePlayerList, fetchExistingMessage.
  rewrite known_identifier by exact Hid. rewrite Herr. cbn. split; reflexivity.
Qed.

(** C5, as the code has it: a cache file that does not exist is read as
    the empty identifier, without an error, and [Start] goes on with no
    prior message; any other failure to read the file is returned by
    [readMessageId] and makes [Start] return that error at once. *)
Theorem missing_cache_file_is_no_prior_message (env : Startup) (err : error) :
  ReadFile env (CachePath cfg) = inr err ->
  (Is_ErrNotExist err = true ->
     readMessageId (ReadFile env) (CachePath cfg) = ("", None) /\
     forall s, New env ("Bot " +:+ BotToken cfg) = inl s -> Open env s = None ->
       exists st, Start_connect cfg env = inl st /\ existingMessageId st = "") /\
  (Is_ErrNotExist err = false ->
     readMessageId (ReadFile env) (CachePath cfg) = ("", Some err) /\
     Start_connect cfg env = inr err).
Proof.
  intros Hread. split; intros His.
  - assert (readMessageId (ReadFile env) (CachePath cfg) = ("", None)) as Hr
      by (unfold readMessageId; rewrite Hread, His; reflexivity).
    split; [exact Hr|]. intros s Hnew Hopen.
    unfold Start_connect. rewrite Hr, Hnew, Hopen. eexists. split; reflexivity.
  - assert (readMessageId (ReadFile env) (CachePath cfg) = ("", Some err)) as Hr
      by (unfold readMessageId; rewrite Hread, His; reflexivity).
    split; [exact Hr|]. unfold Start_connect. rewrite Hr. reflexivity.
Qed.

End Configured.

Lemma known_identifier_is_fetched_unknown_is_searched_witness :
  exists rest res,
    updatePlayerList (sampleConfig []) sampleBot rangeInOrder "" ∅
      = (ReqChannelMessages "status" 100
         :: ReqChannelMessageEditComplex
              {| me_ID := "42"; me_Channel := "status";
                 me_Content := "# Online players";
                 me_Embeds := ms_Embeds (payloadFor rangeInOrder ∅) |}
         :: rest, res).
Proof.
  apply (proj2 (proj2 (proj2
           (known_identifier_is_fetched_unknown_is_searched
              (sampleConfig []) sampleBot rangeInOrder "" ∅))) [] statusMessage []).
  - reflexivity.
  - reflexivity.
  - constructor.
  - reflexivity.
Defined.

Lemma missing_cache_file_is_no_prior_message_witness :
  readMessageId (ReadFile (sampleStartup (inr noSuchFile))) "cache.txt" = ("", None).
Proof.
  apply (proj1 (missing_cache_file_is_no_prior_message
                  (sampleConfig []) (sampleStartup (inr noSuchFile)) noSuchFile
                  eq_refl) eq_refl).
Defined.

(** C4 as worded fails when the fetch by identifier fails: the failure
    goes back to the caller, and the status message that a search would
    find is neither looked for nor edited. *)
Lemma failed_fetch_is_returned :
  isStatusMessage sampleBot statusMessage = true /\
  ChannelMessages lostSession "status" 100 = inl [statusMessage] /\
  updatePlayerList (sampleConfig []) sampleBot rangeInOrder "41" ∅
    = ([ReqChannelMessage "status" "41"],
       ("", Some {| Error := "fetchExistingMessage: HTTP 404 Not Found";
                    Is_ErrNotExist := false |})).
Proof. vm_compute. repeat split. Qed.

(** C5 as worded fails for a read failure other than a missing file:
    [Start] returns the error instead of going on. *)
Lemma unreadable_cache_file_stops_Start :
  Start_connect (sampleConfig []) (sampleStartup (inr permissionDenied))
    = inr permissionDenied.
Proof. reflexivity. Qed.

End PublisherFacts.

(** ** More on duration formatting *)

Module FormatDurationFacts.
Import Float64 Float64Facts DurationFacts Time Utils.

Lemma fraction_bound_step (U g nsec : Z) :
  0 < U < 2 ^ 53 -> 0 < g -> 0 <= nsec <= U - g ->
  0 <= div (of_int nsec) (of_int U) <= top_fraction_step U g.
Proof.
  intros HU Hg Hn. pose proof one_pos as H1.
  rewrite !of_int_exact by lia.
  unfold div, round, top_fraction_step.
  destruct (Z.ltb_spec (U * one) 0); [nia|].
  destruct (Z.ltb_spec (nsec * one * one) 0); [nia|].
  split.
  - apply round_pos_nonneg; nia.
  - apply round_pos_mono; nia.
Qed.

Lemma mod_of_multiple (d g n : Z) :
  0 < g -> 0 < n -> d mod g = 0 -> 0 <= d mod (g * n) <= g * n - g.
Proof.
  intros Hg Hn Hd.
  assert (d = g * (d / g)) as E by (apply Z.div_exact; lia).
  rewrite E at 1 2. rewrite Z.mul_mod_distr_l by lia.
  pose proof (Z.mod_pos_bound (d / g) n Hn). nia.
Qed.

Lemma top_fraction_step_hour :
  top_fraction_step 3600000000000 1000 < one /\
  round_pos (top_fraction_step 3600000000000 1000) 1 < one /\
  2 ^ (22 + 1021) < 2 * (one - top_fraction_step 3600000000000 1000).
Proof. vm_compute. repeat split; reflexivity. Qed.

Lemma top_fraction_step_minute :
  top_fraction_step 60000000000 1000 < one /\
  round_pos (top_fraction_step 60000000000 1000) 1 < one /\
  2 ^ (28 + 1021) < 2 * (one - top_fraction_step 60000000000 1000).
Proof. vm_compute. repeat split; reflexivity. Qed.

Lemma Hours_whole_microseconds (d : Z) :
  0 <= d <= maxDuration -> d mod Microsecond = 0 ->
  to_int (Hours d) = d / Hour.
Proof.
  intros Hd Hmicro. unfold Hours.
  assert (Hour = 3600000000000) as HH by reflexivity.
  assert (maxDuration = 9223372036854775807) as HM by reflexivity.
  assert (Microsecond = 1000) as Hus by reflexivity.
  rewrite Z.quot_div_nonneg, Z.rem_mod_nonneg by lia.
  change (60 * 60 * 1000000000) with 3600000000000.
  assert (0 <= d / Hour < 2 ^ 22) as Hq.
  { split; [apply Z.div_pos; lia|apply Z.div_lt_upper_bound; lia]. }
  assert (0 <= d mod Hour <= 3600000000000 - 1000) as Hr.
  { pose proof (mod_of_multiple d 1000 3600000000 ltac:(lia) ltac:(lia) Hmicro) as Hb.
    change (1000 * 3600000000) with Hour in Hb. lia. }
  destruct top_fraction_step_hour as (T1 & T2 & T3).
  rewrite (of_int_exact (d / Hour)) by lia.
  apply add_whole_fraction with (k := 22) (top := top_fraction_step 3600000000000 1000);
    try assumption; try lia.
  apply fraction_bound_step; lia.
Qed.

Lemma Minutes_whole_microseconds (d : Z) :
  0 <= d <= maxDuration -> d mod Microsecond = 0 ->
  to_int (Minutes d) = d / Minute.
Proof.
  intros Hd Hmicro. unfold Minutes.
  assert (Minute = 60000000000) as HH by reflexivity.
  assert (maxDuration = 9223372036854775807) as HM by reflexivity.
  assert (Microsecond = 1000) as Hus by reflexivity.
  rewrite Z.quot_div_nonneg, Z.rem_mod_nonneg by lia.
  change (60 * 1000000000) with 60000000000.
  assert (0 <= d / Minute < 2 ^ 28) as Hq.
  { split; [apply Z.div_pos; lia|apply Z.div_lt_upper_bound; lia]. }
  assert (0 <= d mod Minute <= 60000000000 - 1000) as Hr.
  { pose proof (mod_of_multiple d 1000 60000000 ltac:(lia) ltac:(lia) Hmicro) as Hb.
    change (1000 * 60000000) with Minute in Hb. lia. }
  destruct top_fraction_step_minute as (T1 & T2 & T3).
  rewrite (of_int_exact (d / Minute)) by lia.
  apply add_whole_fraction with (k := 28) (top := top_fraction_step 60000000000 1000);
    try assumption; try lia.
  apply fraction_bound_step; lia.
Qed.

(** X1: a Duration that is a whole number of microseconds -- any
    whole number of seconds or minutes, as the configured offsets and the
    rounded countdown of a reminder are -- is formatted by the rule of
    whole days, hours and minutes, whatever its length. *)
Theorem FormatDuration_whole_microseconds (d lang : Z) :
  Int64.in_range d -> d mod Microsecond = 0 ->
  FormatDuration d lang = FormatDuration_rule d lang.
Proof.
  intros [_ Hmax] Hmicro. unfold FormatDuration, FormatDuration_rule.
  destruct (Z.ltb_spec d 0) as [|Hnn]; [reflexivity|].
  cbv zeta.
  rewrite Hours_whole_microseconds, Minutes_whole_microseconds
    by (assumption || (split; assumption)).
  apply UtilsFacts.render_rule. assumption.
Qed.

Lemma FormatDuration_whole_microseconds_witness :
  FormatDuration (400 * Day + 90 * Minute) German
    = FormatDuration_rule (400 * Day + 90 * Minute) German.
Proof.
  apply FormatDuration_whole_microseconds.
  - unfold Int64.in_range. vm_compute. split; discriminate.
  - reflexivity.
Defined.

Lemma append_not_empty (a b : string) : a +:+ " " +:+ b ≠ "".
Proof. destruct a; cbn; discriminate. Qed.

Lemma render_not_empty (u : gmap string unit) (totalMinutes totalHours : Z) :
  render u totalMinutes totalHours ≠ "".
Proof.
  unfold render, Sprintf_d_s, Sprintf_d_s_d_s.
  repeat match goal with |- context [if ?b then _ else _] => destruct b end;
    apply append_not_empty.
Qed.

(** X2: [FormatDuration] returns the empty string for the negative
    spans and for no other: a caller can tell a negative span by the
    empty result, in either language. *)
Theorem FormatDuration_empty_iff_negative (d lang : Z) :
  FormatDuration d lang = "" <-> d < 0.
Proof.
  unfold FormatDuration. destruct (Z.ltb_spec d 0) as [Hneg|Hnn].
  - tauto.
  - split; [|lia]. intros H. exfalso. revert H. cbv zeta. apply render_not_empty.
Qed.

Lemma units_unknown (lang : Z) : lang ≠ English -> lang ≠ German -> units !! lang = None.
Proof.
  intros H0 H1. unfold units.
  rewrite lookup_insert_ne by congruence.
  rewrite lookup_insert_ne by congruence.
  apply lookup_empty.
Qed.

(** X3: a language selector other than English and German is
    formatted as English. *)
Theorem FormatDuration_unknown_language (d lang : Z) :
  lang ≠ English -> lang ≠ German ->
  FormatDuration d lang = FormatDuration d English.
Proof.
  intros H0 H1. unfold FormatDuration.
  rewrite (units_unknown lang H0 H1).
  destruct (units !! English) as [u|] eqn:E; [reflexivity|].
  vm_compute in E. discriminate.
Qed.

Lemma FormatDuration_unknown_language_witness :
  FormatDuration (25 * Hour) 7 = FormatDuration (25 * Hour) English.
Proof. apply FormatDuration_unknown_language; discriminate. Defined.

End FormatDurationFacts.

(** ** More on the presence notifications *)

Module PresenceNotifications.
Import Model Config Discord DiscordSpec PresenceFacts.

Lemma absent_player_omap (f : string * string -> option Notification)
    (l : list (string * string)) (p : string) :
  (forall q w n, f (q, w) = Some n -> subject n = q) ->
  p ∉ l.*1 ->
  filter (fun n => subject n = p) (omap f l) = [].
Proof.
  intros Hf. induction l as [|[q w] l IH]; intros Hp; [reflexivity|].
  cbn [omap list_omap]. rewrite fmap_cons in Hp. cbn [fst] in Hp.
  assert (p ≠ q) by (intros ->; apply Hp; left).
  assert (p ∉ l.*1) by (intros H'; apply Hp; right; exact H').
  destruct (f (q, w)) as [n|] eqn:E; [|apply IH; assumption].
  rewrite filter_cons_False; [apply IH; assumption|].
  rewrite (Hf _ _ _ E). congruence.
Qed.

Lemma not_in_range_keys {V : Type} (range : Ranger) (m : gmap string V) (p : string) :
  valid_range range -> m !! p = None -> p ∉ (range V m).*1.
Proof.
  intros Hv Hn Hin. apply list_elem_of_fmap in Hin as ([q v] & -> & Hin).
  apply (elem_of_range range) in Hin; [|exact Hv]. cbn in *. congruence.
Qed.

(** The two functions mapped over the indices. *)
Lemma join_or_move_subject (prev : gmap string string) (q w : string) (n : Notification) :
  match prev !! q with
  | None => Some (NotifyMessage w q true)
  | Some oldServer =>
      if decide (oldServer = w) then None else Some (MoveMessage q oldServer w)
  end = Some n -> subject n = q.
Proof.
  destruct (prev !! q) as [old|].
  - destruct (decide (old = w)); [discriminate|]. intros [= <-]. reflexivity.
  - intros [= <-]. reflexivity.
Qed.

Lemma leave_subject (curr : gmap string string) (q w : string) (n : Notification) :
  match curr !! q with
  | None => Some (NotifyMessage w q false)
  | Some _ => None
  end = Some n -> subject n = q.
Proof. destruct (curr !! q); [discriminate|]. intros [= <-]. reflexivity. Qed.

(** The notifications about one player, read off the two indices. *)
Lemma about_player (rs : Ranges) (last : option (gmap string ServerInfo))
    (ifos : gmap string ServerInfo) (p : string) :
  valid_ranges rs ->
  let prev := match last with
              | Some l => playerServer (rangeLast rs) l
              | None => ∅
              end in
  let curr := playerServer (rangeIfos rs) ifos in
  filter (fun n => subject n = p) (presenceDiff rs last ifos)
    = match curr !! p, prev !! p with
      | Some new, None => [NotifyMessage new p true]
      | Some new, Some old =>
          if decide (old = new) then [] else [MoveMessage p old new]
      | None, Some old => [NotifyMessage old p false]
      | None, None => []
      end.
Proof.
  intros (HvL & HvI & HvC & HvP) prev curr. unfold presenceDiff.
  fold prev. fold curr. rewrite filter_app.
  destruct (curr !! p) as [new|] eqn:Ec; destruct (prev !! p) as [old|] eqn:Ep.
  - rewrite (about_player_omap _ _ p new), (about_player_omap _ _ p old).
    + rewrite Ec, Ep. destruct (decide (old = new)); reflexivity.
    + intros q w n. apply leave_subject.
    + apply NoDup_range_keys. exact HvP.
    + apply (elem_of_range (rangePrev rs)); assumption.
    + intros q w n. apply join_or_move_subject.
    + apply NoDup_range_keys. exact HvC.
    + apply (elem_of_range (rangeCurr rs)); assumption.
  - rewrite (about_player_omap _ _ p new), absent_player_omap.
    + rewrite Ep. reflexivity.
    + intros q w n. apply leave_subject.
    + apply not_in_range_keys; assumption.
    + intros q w n. apply join_or_move_subject.
    + apply NoDup_range_keys. exact HvC.
    + apply (elem_of_range (rangeCurr rs)); assumption.
  - rewrite absent_player_omap, (about_player_omap _ _ p old).
    + rewrite Ec. reflexivity.
    + intros q w n. apply leave_subject.
    + apply NoDup_range_keys. exact HvP.
    + apply (elem_of_range (rangePrev rs)); assumption.
    + intros q w n. apply join_or_move_subject.
    + apply not_in_range_keys; assumption.
  - rewrite !absent_player_omap; [reflexivity| | | |].
    + intros q w n. apply leave_subject.
    + apply not_in_range_keys; assumption.
    + intros q w n. apply join_or_move_subject.
    + apply not_in_range_keys; assumption.
Qed.

(** X4: whatever the two generations hold and in whatever order the
    maps are visited, a cycle sends at most one notification about a
    player -- never a leave together with a join. *)
Theorem at_most_one_notification_per_player (rs : Ranges)
    (last : option (gmap string ServerInfo)) (ifos : gmap string ServerInfo) (p : string) :
  valid_ranges rs ->
  (length (filter (fun n => subject n = p) (presenceDiff rs last ifos)) <= 1)%nat.
Proof.
  intros Hv. rewrite (about_player rs last ifos p Hv). cbv zeta.
  repeat match goal with
         | |- context [match ?x with _ => _ end] => destruct x
         end; cbn; lia.
Qed.

Lemma at_most_one_notification_per_player_witness :
  (length (filter (fun n => subject n = "p")
                  (presenceDiff reversed (Some oneServer) twoServers)) <= 1)%nat.
Proof. apply at_most_one_notification_per_player. exact reversed_valid. Defined.

(** X5: every notification sent reports a change that took place: a
    join names a server that lists the player now, for a player listed
    nowhere before; a leave names a server that listed the player before,
    for a player listed nowhere now; a move names a server that listed
    the player before and a different one that lists the player now. *)
Theorem notifications_report_changes (rs : Ranges)
    (last : option (gmap string ServerInfo)) (ifos : gmap string ServerInfo)
    (n : Notification) :
  valid_ranges rs -> n ∈ presenceDiff rs last ifos ->
  match n with
  | NotifyMessage server player true =>
      listed ifos player server /\ forall s, ~ listed (generation last) player s
  | NotifyMessage server player false =>
      listed (generation last) player server /\ forall s, ~ listed ifos player s
  | MoveMessage player oldserver newserver =>
      listed (generation last) player oldserver /\ listed ifos player newserver /\
      oldserver ≠ newserver
  end.
Proof.
  intros (HvL & HvI & HvC & HvP) Hn. unfold presenceDiff in Hn.
  set (prev := match last with
               | Some l => playerServer (rangeLast rs) l
               | None => ∅
               end) in *.
  set (curr := playerServer (rangeIfos rs) ifos) in *.
  apply elem_of_app in Hn as [Hn|Hn];
    apply list_elem_of_omap in Hn as ([p s] & Hin & Hf).
  - apply (elem_of_range (rangeCurr rs)) in Hin; [|exact HvC].
    apply playerServer_listed in Hin; [|exact HvI].
    destruct (prev !! p) as [old|] eqn:Ep.
    + destruct (decide (old = s)); [discriminate|]. injection Hf as <-.
      split; [|split; assumption]. apply (prev_listed (rangeLast rs)); assumption.
    + injection Hf as <-. split; [assumption|]. intros s' Hl.
      apply (prev_is_Some (rangeLast rs)) in Hl; [|exact HvL].
      fold prev in Hl. rewrite Ep in Hl. destruct Hl as [? Hl]. discriminate.
  - apply (elem_of_range (rangePrev rs)) in Hin; [|exact HvP].
    apply (prev_listed (rangeLast rs)) in Hin; [|exact HvL].
    destruct (curr !! p) as [new|] eqn:Ec; [discriminate|]. injection Hf as <-.
    split; [assumption|]. intros s' Hl.
    apply (playerServer_is_Some (rangeIfos rs)) in Hl; [|exact HvI].
    fold curr in Hl. rewrite Ec in Hl. destruct Hl as [? Hl]. discriminate.
Qed.

Lemma notifications_report_changes_witness :
  listed twoServers "p" "A" /\ forall s, ~ listed (generation None) "p" s.
Proof.
  apply (notifications_report_changes reversed None twoServers
           (NotifyMessage "A" "p" true)).
  - exact reversed_valid.
  - vm_compute. left.
Defined.

(** X6: a player listed nowhere in the previous generation -- any
    player, when there is no previous generation -- and listed in the
    current one gets exactly one notification, a join on a server that
    lists the player now. *)
Theorem new_player_is_one_join (rs : Ranges)
    (last : option (gmap string ServerInfo)) (ifos : gmap string ServerInfo)
    (p s0 : string) :
  valid_ranges rs ->
  (forall s, ~ listed (generation last) p s) -> listed ifos p s0 ->
  exists s, listed ifos p s /\
    filter (fun n => subject n = p) (presenceDiff rs last ifos)
      = [NotifyMessage s p true].
Proof.
  intros Hv Hnone Hnow. rewrite (about_player rs last ifos p Hv). cbv zeta.
  destruct Hv as (HvL & HvI & _).
  destruct (playerServer_is_Some (rangeIfos rs) ifos p s0 HvI Hnow) as [s Es].
  rewrite Es. exists s. split; [apply (playerServer_listed (rangeIfos rs)); assumption|].
  destruct (match last with
            | Some l => playerServer (rangeLast rs) l
            | None => ∅
            end !! p) as [old|] eqn:Ep; [|reflexivity].
  apply (prev_listed (rangeLast rs)) in Ep; [|exact HvL]. destruct (Hnone _ Ep).
Qed.

Lemma new_player_is_one_join_witness :
  exists s, listed twoServers "p" s /\
    filter (fun n => subject n = "p") (presenceDiff inOrder None twoServers)
      = [NotifyMessage s "p" true].
Proof.
  apply (new_player_is_one_join inOrder None twoServers "p" "B").
  - exact inOrder_valid.
  - intros s (info & H & _). cbn in H. rewrite lookup_empty in H. discriminate.
  - exact listed_twoServers_B.
Defined.

(** X7: a player listed in the previous generation and nowhere in the
    current one gets exactly one notification, a leave from a server that
    listed the player before. *)
Theorem gone_player_is_one_leave (rs : Ranges)
    (last ifos : gmap string ServerInfo) (p s0 : string) :
  valid_ranges rs ->
  listed last p s0 -> (forall s, ~ listed ifos p s) ->
  exists s, listed last p s /\
    filter (fun n => subject n = p) (presenceDiff rs (Some last) ifos)
      = [NotifyMessage s p false].
Proof.
  intros Hv Hbefore Hnone. rewrite (about_player rs (Some last) ifos p Hv). cbv zeta.
  destruct Hv as (HvL & HvI & _).
  destruct (playerServer_is_Some (rangeLast rs) last p s0 HvL Hbefore) as [s Es].
  rewrite Es. exists s. split; [apply (playerServer_listed (rangeLast rs)); assumption|].
  destruct (playerServer (rangeIfos rs) ifos !! p) as [new|] eqn:Ec; [|reflexivity].
  apply (playerServer_listed (rangeIfos rs)) in Ec; [|exact HvI]. destruct (Hnone _ Ec).
Qed.

Lemma gone_player_is_one_leave_witness :
  exists s, listed oneServer "p" s /\
    filter (fun n => subject n = "p") (presenceDiff inOrder (Some oneServer) ∅)
      = [NotifyMessage s "p" false].
Proof.
  apply (gone_player_is_one_leave inOrder oneServer ∅ "p" "A").
  - exact inOrder_valid.
  - exact listed_oneServer.
  - intros s (info & H & _). rewrite lookup_empty in H. discriminate.
Defined.

End PresenceNotifications.

(** ** More on the status message and the snapshot loop *)

Module PublishFacts.
Import Model Config Discord DiscordSpec PresenceFacts PresenceNotifications.

(** *** The order of strings *)

Lemma ascii_compare_N (a b : Ascii.ascii) :
  Ascii.compare a b = N.compare (Ascii.N_of_ascii a) (Ascii.N_of_ascii b).
Proof. reflexivity. Qed.

Lemma compare_not_Gt_trans (a b c : string) :
  String.compare a b ≠ Gt -> String.compare b c ≠ Gt -> String.compare a c ≠ Gt.
Proof.
  revert b c. induction a as [|x a IH]; intros [|y b] [|z c]; cbn; try congruence.
  rewrite !ascii_compare_N.
  destruct (N.compare_spec (Ascii.N_of_ascii x) (Ascii.N_of_ascii y)) as [Exy|Lxy|Gxy];
    destruct (N.compare_spec (Ascii.N_of_ascii y) (Ascii.N_of_ascii z)) as [Eyz|Lyz|Gyz];
    try congruence.
  - rewrite Exy, Eyz, N.compare_refl. apply IH.
  - intros _ _. rewrite Exy. apply N.compare_lt_iff in Lyz. rewrite Lyz. discriminate.
  - intros _ _. rewrite <- Eyz. apply N.compare_lt_iff in Lxy. rewrite Lxy. discriminate.
  - intros _ _.
    assert (Ascii.N_of_ascii x < Ascii.N_of_ascii z)%N as L by (etransitivity; eassumption).
    apply N.compare_lt_iff in L. rewrite L. discriminate.
Qed.

Lemma leb_transitive : Transitive (fun a b : string => Is_true (String.leb a b)).
Proof.
  intros a b c Hab Hbc. unfold String.leb in *.
  pose proof (compare_not_Gt_trans a b c) as H.
  destruct (String.compare a b); destruct (String.compare b c);
    destruct (String.compare a c); cbn in *; try tauto; exfalso; apply H; congruence.
Qed.

Lemma leb_total : Total (fun a b : string => Is_true (String.leb a b)).
Proof.
  intros a b. destruct (String.leb_total a b) as [H|H]; rewrite H; cbn; tauto.
Qed.

Lemma leb_antisymm : AntiSymm (=) (fun a b : string => Is_true (String.leb a b)).
Proof.
  intros a b Hab Hba. apply String.leb_antisym; apply Is_true_true; assumption.
Qed.

Lemma sort_Strings_sorted (keys : list string) :
  StronglySorted (fun a b : string => Is_true (String.leb a b)) (sort_Strings keys).
Proof.
  unfold sort_Strings.
  apply (@StronglySorted_merge_sort _ _ _ leb_transitive leb_total).
Qed.

Lemma sort_Strings_order_free (l1 l2 : list string) :
  l1 ≡ₚ l2 -> sort_Strings l1 = sort_Strings l2.
Proof.
  intros Hp.
  apply (@StronglySorted_unique _ (fun a b : string => Is_true (String.leb a b)) leb_antisymm);
    [apply sort_Strings_sorted..|].
  unfold sort_Strings. rewrite !merge_sort_Permutation. exact Hp.
Qed.

Lemma titles_of_blocks (m : gmap string ServerInfo) (keys : list string) :
  Forall (fun k => is_Some (m !! k)) keys ->
  Title <$> omap (fun serverName => embedFor serverName <$> m !! serverName) keys = keys.
Proof.
  induction 1 as [|k keys [info Hk] _ IH]; [reflexivity|].
  cbn [omap list_omap]. rewrite Hk. cbn. rewrite PublisherFacts.Title_embedFor.
  f_equal. exact IH.
Qed.

(** X8: the payload has one block per server, under the server's name,
    in ascending order of the names, and it is the same in whatever order
    the map of servers is visited. *)
Theorem payload_sorted_whatever_the_order (range range' : Ranger)
    (m : gmap string ServerInfo) :
  valid_range range -> valid_range range' ->
  payloadFor range m = payloadFor range' m /\
  Title <$> ms_Embeds (payloadFor range m) ≡ₚ (map_to_list m).*1 /\
  StronglySorted (fun a b : string => Is_true (String.leb a b))
                 (Title <$> ms_Embeds (payloadFor range m)).
Proof.
  intros Hv Hv'.
  assert (sort_Strings (range _ m).*1 = sort_Strings (range' _ m).*1) as Hk.
  { apply sort_Strings_order_free. rewrite (Hv _ m), (Hv' _ m). reflexivity. }
  assert (Title <$> ms_Embeds (payloadFor range m) = sort_Strings (range _ m).*1) as Ht.
  { unfold payloadFor. cbn [ms_Embeds]. apply titles_of_blocks.
    apply Forall_forall. intros k Hin.
    unfold sort_Strings in Hin. rewrite merge_sort_Permutation in Hin.
    apply list_elem_of_fmap in Hin as ([k' info] & -> & Hin).
    apply (elem_of_range range) in Hin; [|exact Hv]. eauto. }
  split; [unfold payloadFor; rewrite Hk; reflexivity|]. rewrite Ht. split.
  - unfold sort_Strings. rewrite merge_sort_Permutation, (Hv _ m). reflexivity.
  - apply sort_Strings_sorted.
Qed.

Lemma payload_sorted_whatever_the_order_witness :
  payloadFor rangeInOrder twoServers = payloadFor rangeReversed twoServers.
Proof.
  apply (payload_sorted_whatever_the_order rangeInOrder rangeReversed twoServers).
  - exact rangeInOrder_valid.
  - exact rangeReversed_valid.
Defined.

(** *** An unchanged snapshot *)

Lemma copy_of_snapshot (ifos : gmap string ServerInfo) :
  (fun info => {| Name := Name info; Players := Players info;
                  Reachable := Reachable info |}) <$> ifos = ifos.
Proof.
  apply map_eq. intros s. rewrite lookup_fmap.
  destruct (ifos !! s) as [[n ps r]|]; reflexivity.
Qed.

Lemma same_presence_no_notification (rs : Ranges) (last ifos : gmap string ServerInfo) :
  valid_ranges rs -> same_presence last ifos -> single_server last ->
  presenceDiff rs (Some last) ifos = [].
Proof.
  intros Hv Hsame Hsingle.
  destruct (presenceDiff rs (Some last) ifos) as [|n l] eqn:E; [reflexivity|exfalso].
  pose proof (about_player rs (Some last) ifos (subject n) Hv) as Hp.
  rewrite E, filter_cons_True in Hp by reflexivity. cbv zeta in Hp.
  destruct Hv as (HvL & HvI & _).
  assert (playerServer (rangeLast rs) last = playerServer (rangeIfos rs) ifos) as Ei.
  { apply (index_determined _ _ last ifos); try assumption; intros q s.
    - apply playerServer_listed. exact HvL.
    - apply playerServer_is_Some. exact HvL.
    - apply playerServer_listed. exact HvI.
    - apply playerServer_is_Some. exact HvI. }
  rewrite Ei in Hp.
  destruct (playerServer (rangeIfos rs) ifos !! subject n) as [s|]; [|discriminate].
  rewrite decide_True in Hp by reflexivity. discriminate.
Qed.

Section Configured.

Variable cfg : ConfigDiscord.

Lemma Start_cycle_requests (range : Ranger) (rs : Ranges) (st : Serving)
    (ifos : gmap string ServerInfo) :
  (Start_cycle cfg range rs st ifos).1.1
    = (updatePlayerList cfg (bot st) range (existingMessageId st) ifos).1
      ++ (if ShowJoinLeave cfg then send cfg <$> presenceDiff rs (lastInfos st) ifos
          else []).
Proof.
  unfold Start_cycle.
  destruct (updatePlayerList cfg (bot st) range (existingMessageId st) ifos)
    as [reqs [msgId err]].
  reflexivity.
Qed.

Lemma Start_cycle_state (range : Ranger) (rs : Ranges) (st : Serving)
    (ifos : gmap string ServerInfo) :
  (Start_cycle cfg range rs st ifos).2
    = {| bot := bot st;
         existingMessageId :=
           (updatePlayerList cfg (bot st) range (existingMessageId st) ifos).2.1;
         lastInfos := Some ifos |} /\
  (Start_cycle cfg range rs st ifos).1.2
    = (updatePlayerList cfg (bot st) range (existingMessageId st) ifos).2.1.
Proof.
  unfold Start_cycle.
  destruct (updatePlayerList cfg (bot st) range (existingMessageId st) ifos)
    as [reqs [msgId err]].
  cbn. rewrite copy_of_snapshot. split; reflexivity.
Qed.

(** X9: when a snapshot lists the same players on the same servers as
    the snapshot of the turn before -- in whatever order, no player on
    two servers -- the turn sends the status update and no join, leave
    or move message. *)
Theorem unchanged_snapshot_sends_no_notification (range range' : Ranger)
    (rs rs' : Ranges) (st : Serving) (ifos ifos' : gmap string ServerInfo) :
  valid_ranges rs' -> same_presence ifos ifos' -> single_server ifos ->
  let st1 := (Start_cycle cfg range rs st ifos).2 in
  (Start_cycle cfg range' rs' st1 ifos').1.1
    = (updatePlayerList cfg (bot st1) range' (existingMessageId st1) ifos').1.
Proof.
  intros Hv Hsame Hsingle st1. rewrite Start_cycle_requests.
  assert (lastInfos st1 = Some ifos) as ->
    by (subst st1; rewrite (proj1 (Start_cycle_state range rs st ifos)); reflexivity).
  rewrite same_presence_no_notification by assumption.
  destruct (ShowJoinLeave cfg); apply app_nil_r.
Qed.

(** *** What [updatePlayerList] asks of the service *)

Lemma fetch_request (bot : DiscordBot) (id : string) :
  (fetchExistingMessage cfg bot id).1
    = [if (0 <? String.length id)%nat
       then ReqChannelMessage (ChannelIDStatus cfg) id
       else ReqChannelMessages (ChannelIDStatus cfg) 100].
Proof.
  unfold fetchExistingMessage. destruct (0 <? String.length id)%nat; reflexivity.
Qed.

Lemma updatePlayerList_begins_with_fetch (bot : DiscordBot) (range : Ranger)
    (id : string) (infos : gmap string ServerInfo) :
  exists rest,
    (updatePlayerList cfg bot range id infos).1
      = (fetchExistingMessage cfg bot id).1 ++ rest.
Proof.
  unfold updatePlayerList.
  destruct (fetchExistingMessage cfg bot id) as [reqs [[m|] [err|]]]; cbn [fst];
    try (exists []; rewrite app_nil_r; reflexivity).
  - destruct (ChannelMessageEditComplex _ _) as [m'|err];
      [destruct (PinPlayerList cfg); [destruct (ChannelMessagePin _ _ _)|]|];
      cbn [fst]; rewrite <- ?app_assoc; eauto.
  - destruct (ChannelMessageSendComplex _ _ _) as [m'|err];
      [destruct (PinPlayerList cfg); [destruct (ChannelMessagePin _ _ _)|]|];
      cbn [fst]; rewrite <- ?app_assoc; eauto.
Qed.

(** X10: whenever [updatePlayerList] returns an error -- from the
    fetch, the edit, the creation or the pin -- the identifier it
    returns is empty; [Start] writes that empty identifier to the cache
    file and keeps it for the next turn. *)
Theorem failed_update_forgets_identifier (range : Ranger) (rs : Ranges) (st : Serving)
    (ifos : gmap string ServerInfo) (err : error) :
  (updatePlayerList cfg (bot st) range (existingMessageId st) ifos).2.2 = Some err ->
  (updatePlayerList cfg (bot st) range (existingMessageId st) ifos).2.1 = "" /\
  (Start_cycle cfg range rs st ifos).1.2 = "" /\
  existingMessageId (Start_cycle cfg range rs st ifos).2 = "".
Proof.
  intros Herr.
  assert ((updatePlayerList cfg (bot st) range (existingMessageId st) ifos).2.1 = "") as E.
  { revert Herr. unfold updatePlayerList.
    destruct (fetchExistingMessage cfg (bot st) (existingMessageId st))
      as [reqs [[m|] [e|]]]; cbn [fst snd]; try reflexivity.
    - destruct (ChannelMessageEditComplex _ _) as [m'|e];
        [destruct (PinPlayerList cfg); [destruct (ChannelMessagePin _ _ _)|]|];
        cbn [fst snd]; congruence.
    - destruct (ChannelMessageSendComplex _ _ _) as [m'|e];
        [destruct (PinPlayerList cfg); [destruct (ChannelMessagePin _ _ _)|]|];
        cbn [fst snd]; congruence. }
  destruct (Start_cycle_state range rs st ifos) as [Hst Hid].
  rewrite Hst, Hid. cbn [existingMessageId]. auto.
Qed.

Lemma publish_requests (bot : DiscordBot) (range : Ranger)
    (id : string) (infos : gmap string ServerInfo)
    (reqs : list Request) (found : option Message) :
  fetchExistingMessage cfg bot id = (reqs, (found, None)) ->
  let all := (updatePlayerList cfg bot range id infos).1 in
  let payload := payloadFor range infos in
  match found with
  | Some m =>
      List.filter is_edit all
        = [ReqChannelMessageEditComplex
             {| me_ID := m_ID m;
                me_Channel := ChannelIDStatus cfg;
                me_Content := ms_Content payload;
                me_Embeds := ms_Embeds payload |}] /\
      List.filter is_create all = []
  | None =>
      List.filter is_edit all = [] /\
      List.filter is_create all
        = [ReqChannelMessageSendComplex (ChannelIDStatus cfg) payload]
  end.
Proof.
  intros Hf all payload. subst all payload.
  pose proof (fetch_request bot id) as Hr. rewrite Hf in Hr. cbn [fst] in Hr.
  unfold updatePlayerList. rewrite Hf. subst reqs.
  destruct found as [m|].
  - destruct (ChannelMessageEditComplex _ _) as [m'|e];
      [destruct (PinPlayerList cfg); [destruct (ChannelMessagePin _ _ _)|]|];
      destruct (0 <? String.length id)%nat; cbn; split; reflexivity.
  - destruct (ChannelMessageSendComplex _ _ _) as [m'|e];
      [destruct (PinPlayerList cfg); [destruct (ChannelMessagePin _ _ _)|]|];
      destruct (0 <? String.length id)%nat; cbn; split; reflexivity.
Qed.

(** X11: [updatePlayerList] edits exactly when the fetch found a
    message, and then creates nothing; it creates exactly when the fetch
    found none, and then edits nothing.  Either way the payload goes out
    once. *)
Theorem edits_found_message_else_creates (bot : DiscordBot) (range : Ranger)
    (id : string) (infos : gmap string ServerInfo)
    (reqs : list Request) (found : option Message) :
  fetchExistingMessage cfg bot id = (reqs, (found, None)) ->
  let all := (updatePlayerList cfg bot range id infos).1 in
  let payload := payloadFor range infos in
  match found with
  | Some m =>
      List.filter is_edit all
        = [ReqChannelMessageEditComplex
             {| me_ID := m_ID m;
                me_Channel := ChannelIDStatus cfg;
                me_Content := ms_Content payload;
                me_Embeds := ms_Embeds payload |}] /\
      List.filter is_create all = []
  | None =>
      List.filter is_edit all = [] /\
      List.filter is_create all
        = [ReqChannelMessageSendComplex (ChannelIDStatus cfg) payload]
  end.
Proof.
  intros Hf all payload.
  pose proof (publish_requests bot range id infos reqs found Hf) as H.
  destruct found as [m|]; destruct H as [He Hc]; split; assumption.
Qed.

(** X12: when [updatePlayerList] returns no error, the identifier it
    returns is the one of the message the service answered to the edit
    or to the creation; with pinning configured its last request pins
    that very message, and without it no pin is requested. *)
Theorem successful_update_returns_published_message (bot : DiscordBot) (range : Ranger)
    (id : string) (infos : gmap string ServerInfo) (msgId : string) :
  (updatePlayerList cfg bot range id infos).2 = (msgId, None) ->
  let all := (updatePlayerList cfg bot range id infos).1 in
  let ch := ChannelIDStatus cfg in
  (exists m, msgId = m_ID m /\
     ((exists edit, ReqChannelMessageEditComplex edit ∈ all /\
                    ChannelMessageEditComplex (session bot) edit = inl m) \/
      (exists data, ReqChannelMessageSendComplex ch data ∈ all /\
                    ChannelMessageSendComplex (session bot) ch data = inl m))) /\
  (if PinPlayerList cfg
   then last all = Some (ReqChannelMessagePin ch msgId) /\
        ChannelMessagePin (session bot) ch msgId = None
   else List.filter is_pin all = []).
Proof.
  intros Hok all ch. subst all ch. revert Hok.
  pose proof (fetch_request bot id) as Hr.
  unfold updatePlayerList.
  destruct (fetchExistingMessage cfg bot id) as [reqs [[m|] [e|]]];
    cbn [fst snd] in *; try discriminate; subst reqs.
  - destruct (ChannelMessageEditComplex _ _) as [m'|e] eqn:Ee; [|discriminate].
    destruct (PinPlayerList cfg).
    + destruct (ChannelMessagePin _ _ _) eqn:Ep; [discriminate|].
      intros [= <-]. cbn [fst]. split.
      * exists m'. split; [reflexivity|]. left. eexists. split; [|exact Ee].
        rewrite !elem_of_app. left. right. left.
      * split; [|exact Ep]. rewrite last_snoc. reflexivity.
    + intros [= <-]. cbn [fst]. split.
      * exists m'. split; [reflexivity|]. left. eexists. split; [|exact Ee].
        rewrite !elem_of_app. right. left.
      * destruct (0 <? String.length id)%nat; reflexivity.
  - destruct (ChannelMessageSendComplex _ _ _) as [m'|e] eqn:Ee; [|discriminate].
    destruct (PinPlayerList cfg).
    + destruct (ChannelMessagePin _ _ _) eqn:Ep; [discriminate|].
      intros [= <-]. cbn [fst]. split.
      * exists m'. split; [reflexivity|]. right. eexists. split; [|exact Ee].
        rewrite !elem_of_app. left. right. left.
      * split; [|exact Ep]. rewrite last_snoc. reflexivity.
    + intros [= <-]. cbn [fst]. split.
      * exists m'. split; [reflexivity|]. right. eexists. split; [|exact Ee].
        rewrite !elem_of_app. right. left.
      * destruct (0 <? String.length id)%nat; reflexivity.
Qed.

(** X13: the identifier a turn writes to the cache file comes back:
    when it is not empty, the next turn begins by fetching exactly that
    message, and a later [Start] that reads it from the file enters its
    loop with it (and with no previous snapshot). *)
Theorem identifier_round_trip (range range' : Ranger) (rs rs' : Ranges) (st : Serving)
    (ifos ifos' : gmap string ServerInfo) (env : Startup) (st' : Serving) :
  let written := (Start_cycle cfg range rs st ifos).1.2 in
  written ≠ "" ->
  head (Start_cycle cfg range' rs' (Start_cycle cfg range rs st ifos).2 ifos').1.1
    = Some (ReqChannelMessage (ChannelIDStatus cfg) written) /\
  (ReadFile env (CachePath cfg) = inl written -> Start_connect cfg env = inl st' ->
   existingMessageId st' = written /\ lastInfos st' = None /\
   forall ifos'',
     head (Start_cycle cfg range' rs' st' ifos'').1.1
       = Some (ReqChannelMessage (ChannelIDStatus cfg) written)).
Proof.
  intros written Hne.
  assert (forall (s : Serving) (m : gmap string ServerInfo),
             existingMessageId s = written ->
             head (Start_cycle cfg range' rs' s m).1.1
               = Some (ReqChannelMessage (ChannelIDStatus cfg) written)) as Hhead.
  { intros s m Hs. rewrite Start_cycle_requests.
    destruct (updatePlayerList_begins_with_fetch (bot s) range' (existingMessageId s) m)
      as [rest ->].
    rewrite fetch_request, Hs, PublisherFacts.known_identifier by exact Hne.
    reflexivity. }
  split.
  - apply Hhead. destruct (Start_cycle_state range rs st ifos) as [-> E].
    cbn [existingMessageId]. subst written. rewrite E. reflexivity.
  - intros Hread Hstart.
    assert (existingMessageId st' = written /\ lastInfos st' = None) as [E1 E2].
    { revert Hstart. unfold Start_connect, readMessageId. rewrite Hread.
      rewrite PublisherFacts.known_identifier by exact Hne.
      destruct (New env _) as [s|e]; [|discriminate].
      destruct (Open env s); [discriminate|].
      intros [= <-]. split; reflexivity. }
    split; [exact E1|]. split; [exact E2|]. intros m. apply Hhead. exact E1.
Qed.

(** X14: with no identifier known, the only message [updatePlayerList]
    ever edits is one of the recent messages the service listed, whose
    author is the bot and whose text holds the title marker; and when the
    listing fails, nothing is edited or created. *)
Theorem search_edits_only_own_status_message (bot : DiscordBot) (range : Ranger)
    (infos : gmap string ServerInfo) :
  let ch := ChannelIDStatus cfg in
  let all := (updatePlayerList cfg bot range "" infos).1 in
  (forall msgs edit,
      ChannelMessages (session bot) ch 100 = inl msgs ->
      ReqChannelMessageEditComplex edit ∈ all ->
      exists m, m ∈ msgs /\ isStatusMessage bot m = true /\
                me_ID edit = m_ID m /\ me_Channel edit = ch) /\
  (forall err,
      ChannelMessages (session bot) ch 100 = inr err ->
      updatePlayerList cfg bot range "" infos
        = ([ReqChannelMessages ch 100], ("", Some (Errorf "fetchExistingMessage: " err)))).
Proof.
  intros ch all. subst all. split.
  - intros msgs edit Hmsgs.
    assert (fetchExistingMessage cfg bot ""
            = ([ReqChannelMessages ch 100],
               (List.find (isStatusMessage bot) msgs, None))) as Hfetch.
    { unfold fetchExistingMessage. cbn [String.length Nat.ltb Nat.leb].
      fold ch. rewrite Hmsgs. reflexivity. }
    destruct (List.find (isStatusMessage bot) msgs) as [m|] eqn:Efind.
    + apply List.find_some in Efind as [Hin Hst].
      intros Hedit. exists m. split; [apply list_elem_of_In; exact Hin|].
      split; [exact Hst|].
      apply list_elem_of_In in Hedit.
      assert (In (ReqChannelMessageEditComplex edit)
                 (List.filter is_edit (updatePlayerList cfg bot range "" infos).1)) as Hf
        by (apply List.filter_In; split; [exact Hedit|reflexivity]).
      rewrite (proj1 (publish_requests bot range "" infos _ (Some m) Hfetch)) in Hf.
      destruct Hf as [Hf|[]]. injection Hf as <-. split; reflexivity.
    + intros Hedit. exfalso. apply list_elem_of_In in Hedit.
      assert (In (ReqChannelMessageEditComplex edit)
                 (List.filter is_edit (updatePlayerList cfg bot range "" infos).1)) as Hf
        by (apply List.filter_In; split; [exact Hedit|reflexivity]).
      rewrite (proj1 (publish_requests bot range "" infos _ None Hfetch)) in Hf.
      destruct Hf.
  - intros err Herr. unfold updatePlayerList, fetchExistingMessage.
    cbn [String.length Nat.ltb Nat.leb]. fold ch. rewrite Herr. reflexivity.
Qed.

End Configured.

Lemma unchanged_snapshot_sends_no_notification_witness :
  let st := {| bot := sampleBot; existingMessageId := ""; lastInfos := None |} in
  let st1 := (Start_cycle (sampleConfig []) rangeInOrder inOrder st oneServer).2 in
  (Start_cycle (sampleConfig []) rangeReversed reversed st1 oneServer).1.1
    = (updatePlayerList (sampleConfig []) (bot st1) rangeReversed
                        (existingMessageId st1) oneServer).1.
Proof.
  apply (unchanged_snapshot_sends_no_notification (sampleConfig [])).
  - exact reversed_valid.
  - intros p s. reflexivity.
  - exact single_server_oneServer.
Defined.

Lemma failed_update_forgets_identifier_witness :
  let st := {| bot := sampleBot; existingMessageId := "41"; lastInfos := None |} in
  (Start_cycle (sampleConfig []) rangeInOrder inOrder st oneServer).1.2 = "".
Proof.
  apply (failed_update_forgets_identifier (sampleConfig []) rangeInOrder inOrder
           {| bot := sampleBot; existingMessageId := "41"; lastInfos := None |} oneServer
           {| Error := "fetchExistingMessage: HTTP 404 Not Found";
              Is_ErrNotExist := false |}).
  reflexivity.
Defined.

Lemma edits_found_message_else_creates_witness :
  List.filter is_create
    (updatePlayerList (sampleConfig []) sampleBot rangeInOrder "" oneServer).1 = [].
Proof.
  apply (edits_found_message_else_creates (sampleConfig []) sampleBot rangeInOrder ""
           oneServer [ReqChannelMessages "status" 100] (Some statusMessage)).
  reflexivity.
Defined.

Lemma successful_update_returns_published_message_witness :
  last (updatePlayerList (sampleConfig []) sampleBot rangeInOrder "" oneServer).1
    = Some (ReqChannelMessagePin "status" "42") /\
  ChannelMessagePin lostSession "status" "42" = None.
Proof.
  apply (successful_update_returns_published_message (sampleConfig []) sampleBot
           rangeInOrder "" oneServer "42").
  reflexivity.
Defined.

Lemma identifier_round_trip_witness :
  let st := {| bot := sampleBot; existingMessageId := ""; lastInfos := None |} in
  head (Start_cycle (sampleConfig []) rangeInOrder inOrder
          (Start_cycle (sampleConfig []) rangeInOrder inOrder st oneServer).2
          oneServer).1.1
    = Some (ReqChannelMessage "status" "42").
Proof.
  apply (identifier_round_trip (sampleConfig []) rangeInOrder rangeInOrder inOrder inOrder
           {| bot := sampleBot; existingMessageId := ""; lastInfos := None |}
           oneServer oneServer (sampleStartup (inl "42"))
           {| bot := sampleBot; existingMessageId := "42"; lastInfos := None |}).
  vm_compute. discriminate.
Defined.

Lemma search_edits_only_own_status_message_witness :
  exists m, m ∈ [statusMessage] /\ isStatusMessage sampleBot m = true /\
            "42" = m_ID m /\ "status" = "status".
Proof.
  apply (proj1 (search_edits_only_own_status_message (sampleConfig []) sampleBot
                  rangeInOrder ∅) [statusMessage]
               {| me_ID := "42"; me_Channel := "status";
                  me_Content := "# Online players";
                  me_Embeds := ms_Embeds (payloadFor rangeInOrder ∅) |}).
  - reflexivity.
  - vm_compute. right. left.
Defined.

End PublishFacts.

(** ** More on the reminder store *)

Module ReminderFacts.
Import Model Config Discord DiscordSpec EventerFacts.

Section Eventer.

Variable cfg : ConfigDiscord.
Variable clock : nat -> Z.
Variable FormatCET : string -> Z -> string.

Let offsets := ReminderOffsets (Eventer cfg).

Lemma derivedFrom_readings (event : GuildScheduledEvent) (n : nat) :
  exists k, (derivedFrom clock offsets event n).2 = (n + k)%nat.
Proof.
  unfold derivedFrom.
  destruct (offsetsFrom_readings clock event offsets n) as [k Hk].
  destruct (offsetsFrom clock event offsets n) as [l n']. cbn [snd] in Hk. subst n'.
  destruct (clock (n + k) <? ScheduledStartTime event); cbn [snd].
  - exists (2 + k)%nat. lia.
  - exists (1 + k)%nat. lia.
Qed.

Lemma derivedFrom_length (event : GuildScheduledEvent) (n : nat) :
  (length (derivedFrom clock offsets event n).1 <= length offsets + 1)%nat.
Proof.
  pose proof (sublist_length _ _ (derivedFrom_sublist cfg clock event n)) as H.
  fold offsets in H. rewrite length_app, length_fmap in H. cbn in H. lia.
Qed.

(** The derivation at one instant. *)
Lemma queueReminders_frozen (w : World) (e : GuildScheduledEvent) (now : Z) :
  (forall k, clock (readings w + k) = now) ->
  Pending (queueReminders cfg clock e w).2 = Pending w ++ reminderSet offsets now e /\
  outbox (queueReminders cfg clock e w).2 = outbox w /\
  exists k, readings (queueReminders cfg clock e w).2 = (readings w + k)%nat.
Proof.
  intros Hclock. rewrite queueReminders_run. cbn [snd Pending outbox readings].
  fold offsets. split; [|split; [reflexivity|apply derivedFrom_readings]].
  f_equal. unfold derivedFrom, reminderSet.
  pose proof (offsetsFrom_frozen clock e offsets (readings w) now Hclock) as Hl.
  destruct (offsetsFrom_readings clock e offsets (readings w)) as [k Hk].
  destruct (offsetsFrom clock e offsets (readings w)) as [l n']. cbn [fst snd] in *.
  subst n'. rewrite Hclock, Hl.
  destruct (Z.ltb_spec now (ScheduledStartTime e)).
  - rewrite bool_decide_eq_true_2 by assumption. reflexivity.
  - rewrite bool_decide_eq_false_2 by lia. cbn. rewrite app_nil_r. reflexivity.
Qed.

Lemma reminderSet_event (now : Z) (e : GuildScheduledEvent) :
  Forall (fun r => EventID r = ev_ID e /\ now < RemindAt r) (reminderSet offsets now e).
Proof.
  unfold reminderSet. apply Forall_app. split.
  - apply Forall_forall. intros r Hr.
    apply list_elem_of_fmap in Hr as (o & -> & Ho).
    apply list_elem_of_filter in Ho as [Ho _]. split; [reflexivity|exact Ho].
  - destruct (bool_decide_reflect (now < ScheduledStartTime e)); repeat constructor.
    exact l.
Qed.

(** X15: [queueReminders] leaves the reminders already pending where
    they are, appends at most one reminder per configured offset and one
    more, and sends nothing. *)
Theorem queueReminders_appends_bounded (w : World) (e : GuildScheduledEvent) :
  let w' := (queueReminders cfg clock e w).2 in
  Pending w `prefix_of` Pending w' /\
  (length (Pending w') <= length (Pending w) + length offsets + 1)%nat /\
  outbox w' = outbox w.
Proof.
  intros w'. subst w'. rewrite queueReminders_run. cbn [snd Pending outbox].
  split; [apply prefix_app_r; reflexivity|]. split; [|reflexivity].
  rewrite length_app. pose proof (derivedFrom_length e (readings w)). fold offsets. lia.
Qed.

(** X16: an event that has already started gets no reminder: when the
    start is not after the instant of derivation and no offset is
    negative, [queueReminders] leaves the store as it is. *)
Theorem started_event_gets_no_reminder (w : World) (e : GuildScheduledEvent) (now : Z) :
  (forall k, clock (readings w + k) = now) ->
  Forall (fun o => 0 <= o <= Int64.max_value) offsets ->
  ScheduledStartTime e <= now ->
  Pending (queueReminders cfg clock e w).2 = Pending w.
Proof.
  intros Hclock Hoff Hstart.
  rewrite (proj1 (queueReminders_frozen w e now Hclock)).
  unfold reminderSet.
  rewrite filter_none, bool_decide_eq_false_2 by
    (lia || (eapply Forall_impl; [exact Hoff|]; cbn; intros o Ho;
             rewrite (remindTime_minus e o) by (unfold Int64.min_value; lia); lia)).
  cbn. apply app_nil_r.
Qed.

Lemma update_frozen (w : World) (e : GuildScheduledEvent) (now : Z) :
  ev_Status e = GuildScheduledEventStatusScheduled ->
  (forall k, clock (readings w + k) = now) ->
  Pending (updateRemindersForEvent cfg clock e w).2
    = filter (fun r => EventID r ≠ ev_ID e) (Pending w) ++ reminderSet offsets now e /\
  exists k, readings (updateRemindersForEvent cfg clock e w).2 = (readings w + k)%nat.
Proof.
  intros Hs Hclock. rewrite updateRemindersForEvent_scheduled by exact Hs.
  rewrite removeRemindersForEvent_run. cbn [snd].
  destruct (queueReminders_frozen
              {| Pending := filter (fun r => EventID r ≠ ev_ID e) (Pending w);
                 readings := readings w; outbox := outbox w |} e now Hclock)
    as (HP & _ & Hk).
  split; [exact HP|exact Hk].
Qed.

(** X17: repeated updates do not pile up reminders: a second
    rescheduling notification for the same event at the same instant
    leaves the store exactly as the first one left it. *)
Theorem repeated_update_changes_nothing (w : World) (e : GuildScheduledEvent) (now : Z) :
  ev_Status e = GuildScheduledEventStatusScheduled ->
  (forall k, clock (readings w + k) = now) ->
  let w1 := (updateRemindersForEvent cfg clock e w).2 in
  Pending (updateRemindersForEvent cfg clock e w1).2 = Pending w1.
Proof.
  intros Hs Hclock w1.
  destruct (update_frozen w e now Hs Hclock) as [HP1 [k Hk]]. fold w1 in HP1, Hk.
  assert (forall j, clock (readings w1 + j) = now) as Hclock1.
  { intros j. rewrite Hk, <- Nat.add_assoc. apply Hclock. }
  destruct (update_frozen w1 e now Hs Hclock1) as [HP2 _].
  rewrite HP2, HP1. f_equal.
  rewrite filter_app, (filter_none _ (reminderSet offsets now e)), app_nil_r.
  - apply filter_all. apply Forall_forall. intros r Hr.
    apply list_elem_of_filter in Hr. tauto.
  - eapply Forall_impl; [apply (reminderSet_event now e)|]. cbn. intros r [H _]. tauto.
Qed.

Lemma Forall2_delivered (l : list Reminder) (reqs : list Request) (r : Reminder) :
  Forall2 (delivers cfg FormatCET) l reqs -> r ∈ l ->
  exists req, req ∈ reqs /\ delivers cfg FormatCET r req.
Proof.
  induction 1 as [|x req l reqs Hx _ IH]; intros Hin; [inversion Hin|].
  apply elem_of_cons in Hin as [->|Hin].
  - exists req. split; [left|exact Hx].
  - destruct (IH Hin) as (req' & H1 & H2). exists req'. split; [right; exact H1|exact H2].
Qed.

(** X18: an update whose status is not "scheduled" -- the event has
    started, was completed or was cancelled -- changes nothing: the
    reminders of the event stay pending, and the next tick that reads an
    instant after the RemindAt of one of them still posts it. *)
Theorem unscheduled_update_keeps_reminders (w : World) (e : GuildScheduledEvent)
    (r : Reminder) :
  ev_Status e ≠ GuildScheduledEventStatusScheduled ->
  r ∈ Pending w -> EventID r = ev_ID e -> RemindAt r < clock (readings w) ->
  let w1 := (updateRemindersForEvent cfg clock e w).2 in
  let w2 := (reminderWorker_tick cfg clock FormatCET w1).2 in
  w1 = w /\
  exists req, req ∈ outbox w2 /\ delivers cfg FormatCET r req.
Proof.
  intros Hs Hr _ Hdue w1 w2. subst w2 w1.
  rewrite updateRemindersForEvent_other_status by exact Hs. cbn [snd].
  split; [reflexivity|].
  destruct (reminderWorker_tick_run cfg clock FormatCET w) as (reqs & n & Hrun & Hsent).
  rewrite Hrun. cbn [snd outbox].
  destruct (Forall2_delivered _ _ r Hsent) as (req & Hin & Hd).
  { apply list_elem_of_filter. split; assumption. }
  exists req. split; [apply elem_of_app; right; exact Hin|exact Hd].
Qed.

(** X19: a tick neither loses nor repeats a reminder: each pending
    reminder is either kept or answered by one message, so the store
    shrinks by exactly the number of messages sent; and when no pending
    reminder is past, the tick sends nothing and keeps the store. *)
Theorem tick_keeps_or_sends (w : World) :
  let w' := (reminderWorker_tick cfg clock FormatCET w).2 in
  (exists reqs,
      outbox w' = outbox w ++ reqs /\
      length (Pending w) = (length (Pending w') + length reqs)%nat) /\
  (Forall (fun r => clock (readings w) <= RemindAt r) (Pending w) ->
   Pending w' = Pending w /\ outbox w' = outbox w).
Proof.
  intros w'. subst w'.
  destruct (reminderWorker_tick_run cfg clock FormatCET w) as (reqs & n & Hrun & Hsent).
  rewrite Hrun. cbn [snd Pending outbox]. split.
  - exists reqs. split; [reflexivity|].
    rewrite <- (Forall2_length _ _ _ Hsent).
    rewrite <- (filter_app_complement (fun r => RemindAt r < clock (readings w)) (Pending w))
      at 1.
    rewrite length_app. lia.
  - intros Hidle.
    rewrite filter_none in Hsent
      by (eapply Forall_impl; [exact Hidle|]; cbn; intros; lia).
    inversion Hsent; subst. rewrite app_nil_r. split; [|reflexivity].
    apply filter_all. eapply Forall_impl; [exact Hidle|]. cbn. intros; lia.
Qed.

(** X20: over two ticks in a row no reminder is posted twice: the
    first tick posts the reminders before its instant, the second only
    those from the first instant on and before its own, and what is left
    is at or after both instants. *)
Theorem two_ticks_deliver_once (w : World) :
  let now1 := clock (readings w) in
  let w1 := (reminderWorker_tick cfg clock FormatCET w).2 in
  let now2 := clock (readings w1) in
  let w2 := (reminderWorker_tick cfg clock FormatCET w1).2 in
  Pending w2
    = filter (fun r => now1 <= RemindAt r /\ now2 <= RemindAt r) (Pending w) /\
  exists reqs1 reqs2,
    outbox w2 = outbox w ++ reqs1 ++ reqs2 /\
    Forall2 (delivers cfg FormatCET)
            (filter (fun r => RemindAt r < now1) (Pending w)) reqs1 /\
    Forall2 (delivers cfg FormatCET)
            (filter (fun r => now1 <= RemindAt r /\ RemindAt r < now2) (Pending w)) reqs2.
Proof.
  intros now1 w1 now2 w2.
  destruct (reminderWorker_tick_run cfg clock FormatCET w) as (reqs1 & n1 & Hrun1 & Hsent1).
  assert (w1 = {| Pending := filter (fun r => ~ RemindAt r < now1) (Pending w);
                  readings := n1; outbox := outbox w ++ reqs1 |}) as Hw1
    by (subst w1; rewrite Hrun1; reflexivity).
  destruct (reminderWorker_tick_run cfg clock FormatCET w1) as (reqs2 & n2 & Hrun2 & Hsent2).
  fold now2 in Hrun2, Hsent2. subst w2. rewrite Hrun2. cbn [snd Pending outbox].
  rewrite Hw1 in *. cbn [Pending outbox] in *.
  rewrite list_filter_filter in Hsent2 |- *. split.
  - apply list_filter_iff. intros r. lia.
  - exists reqs1, reqs2. split; [rewrite app_assoc; reflexivity|].
    split; [exact Hsent1|].
    erewrite list_filter_iff; [exact Hsent2|]. intros r. cbn. lia.
Qed.

(** X21: a reminder is never posted at the instant it is queued: a
    tick that reads the same instant as the derivation before it posts
    only reminders that were pending earlier, and keeps every reminder
    just derived. *)
Theorem queued_reminders_outlive_the_instant (w : World) (e : GuildScheduledEvent)
    (now : Z) :
  (forall k, clock (readings w + k) = now) ->
  let w1 := (queueReminders cfg clock e w).2 in
  let w2 := (reminderWorker_tick cfg clock FormatCET w1).2 in
  Pending w2
    = filter (fun r => ~ RemindAt r < now) (Pending w) ++ reminderSet offsets now e /\
  exists reqs,
    outbox w2 = outbox w ++ reqs /\
    Forall2 (delivers cfg FormatCET)
            (filter (fun r => RemindAt r < now) (Pending w)) reqs.
Proof.
  intros Hclock w1 w2.
  destruct (queueReminders_frozen w e now Hclock) as (HP & Hout & k & Hk).
  fold w1 in HP, Hout, Hk.
  destruct (reminderWorker_tick_run cfg clock FormatCET w1) as (reqs & n & Hrun & Hsent).
  assert (clock (readings w1) = now) as Hnow by (rewrite Hk; apply Hclock).
  rewrite Hnow, HP in *. subst w2. rewrite Hrun. cbn [snd Pending outbox].
  pose proof (reminderSet_event now e) as Hset.
  rewrite !filter_app in *.
  rewrite (filter_none (fun r => RemindAt r < now) (reminderSet offsets now e)) in Hsent
    by (eapply Forall_impl; [exact Hset|]; cbn; intros; lia).
  rewrite (filter_all (fun r => ~ RemindAt r < now) (reminderSet offsets now e))
    by (eapply Forall_impl; [exact Hset|]; cbn; intros; lia).
  rewrite app_nil_r in Hsent. split; [reflexivity|].
  exists reqs. rewrite Hout. split; [reflexivity|exact Hsent].
Qed.

(** *** What the store holds, what the handlers send *)

Lemma derivedFrom_derived (e : GuildScheduledEvent) (n : nat) :
  Forall (derived_reminder offsets) (derivedFrom clock offsets e n).1.
Proof.
  apply Forall_forall. intros r Hr.
  apply (sublist_subseteq _ _ (derivedFrom_sublist cfg clock e n)) in Hr.
  fold offsets in Hr. exists e.
  apply elem_of_app in Hr as [Hr|Hr].
  - right. apply list_elem_of_fmap in Hr as (o & -> & Ho). eauto.
  - left. apply list_elem_of_singleton in Hr. exact Hr.
Qed.

Lemma queueReminders_derived (e : GuildScheduledEvent) (w : World) :
  Forall (derived_reminder offsets) (Pending w) ->
  Forall (derived_reminder offsets) (Pending (queueReminders cfg clock e w).2).
Proof.
  intros H. rewrite queueReminders_run. cbn [snd Pending].
  apply Forall_app. split; [exact H|apply derivedFrom_derived].
Qed.

Lemma events_loop_derived (events : list GuildScheduledEvent) (w : World) :
  Forall (derived_reminder offsets) (Pending w) ->
  Forall (derived_reminder offsets)
         (Pending (forEach events (queueReminders cfg clock) w).2) /\
  outbox (forEach events (queueReminders cfg clock) w).2 = outbox w.
Proof.
  revert w. induction events as [|e events IH]; intros w H; [split; [exact H|reflexivity]|].
  cbn [forEach]. unfold mbind, Action_bind.
  destruct (queueReminders cfg clock e w) as [[] w1] eqn:Hq.
  assert (w1 = (queueReminders cfg clock e w).2) as Hw1 by (rewrite Hq; reflexivity).
  destruct (IH w1) as [H1 H2].
  { rewrite Hw1. apply queueReminders_derived. exact H. }
  split; [exact H1|]. rewrite H2, Hw1, queueReminders_run. reflexivity.
Qed.

Lemma filter_derived (P : Reminder -> Prop) `{!forall r, Decision (P r)}
    (l : list Reminder) :
  Forall (derived_reminder offsets) l -> Forall (derived_reminder offsets) (filter P l).
Proof.
  rewrite !Forall_forall. intros Hall r Hr. apply list_elem_of_filter in Hr.
  apply Hall. tauto.
Qed.

Lemma handle_derived (i : Input) (w : World) :
  Forall (derived_reminder offsets) (Pending w) ->
  Forall (derived_reminder offsets) (Pending (handle cfg clock FormatCET i w).2).
Proof.
  intros H. destruct i as [e|e|guilds|]; cbn [handle].
  - unfold createRemindersForEvent, mbind, Action_bind, ChannelMessageSend.
    apply queueReminders_derived. exact H.
  - destruct (Z.eq_dec (ev_Status e) GuildScheduledEventStatusScheduled) as [Hs|Hs].
    + rewrite updateRemindersForEvent_scheduled by exact Hs.
      rewrite removeRemindersForEvent_run. cbn [snd].
      apply queueReminders_derived. cbn [Pending]. apply filter_derived. exact H.
    + rewrite updateRemindersForEvent_other_status by exact Hs. exact H.
  - rewrite syncExistingEvents_run. apply events_loop_derived. exact H.
  - destruct (reminderWorker_tick_run cfg clock FormatCET w) as (reqs & n & Hrun & _).
    rewrite Hrun. cbn [snd Pending]. apply filter_derived. exact H.
Qed.


(** X23: the handlers send nothing but the announcement: a creation
    notification posts exactly the announcement of the event, an update
    notification and a reconciliation post nothing, and a tick posts one
    message for each pending reminder that is past. *)
Theorem handlers_send_only_announcements (i : Input) (w : World) :
  let w' := (handle cfg clock FormatCET i w).2 in
  match i with
  | EventCreate e => outbox w' = outbox w ++ [announcement cfg e]
  | EventUpdate _ | Reconcile _ => outbox w' = outbox w
  | Tick =>
      exists reqs,
        outbox w' = outbox w ++ reqs /\
        length reqs
          = length (filter (fun r => RemindAt r < clock (readings w)) (Pending w))
  end.
Proof.
  intros w'. subst w'. destruct i as [e|e|guilds|]; cbn [handle].
  - unfold createRemindersForEvent, mbind, Action_bind, ChannelMessageSend.
    rewrite queueReminders_run. reflexivity.
  - destruct (Z.eq_dec (ev_Status e) GuildScheduledEventStatusScheduled) as [Hs|Hs].
    + rewrite updateRemindersForEvent_scheduled by exact Hs.
      rewrite removeRemindersForEvent_run, queueReminders_run. reflexivity.
    + rewrite updateRemindersForEvent_other_status by exact Hs. reflexivity.
  - rewrite syncExistingEvents_run.
    revert w. induction (reconciled guilds) as [|e events IH]; intros w; [reflexivity|].
    cbn [forEach]. unfold mbind, Action_bind.
    destruct (queueReminders cfg clock e w) as [[] w1] eqn:Hq.
    rewrite IH.
    assert (w1 = (queueReminders cfg clock e w).2) as -> by (rewrite Hq; reflexivity).
    rewrite queueReminders_run. reflexivity.
  - destruct (reminderWorker_tick_run cfg clock FormatCET w) as (reqs & n & Hrun & Hsent).
    rewrite Hrun. cbn [snd outbox]. exists reqs. split; [reflexivity|].
    symmetry. eapply Forall2_length. exact Hsent.
Qed.

(** X24: the startup reconciliation queues the reminders of the
    events of every guild whose query succeeded, guild by guild and
    event by event, and passes over a guild whose query failed as if it
    were not there. *)
Theorem reconciliation_skips_failed_guilds
    (before after : list (list GuildScheduledEvent + error)) (err : error) (w : World) :
  syncExistingEvents cfg clock (before ++ inr err :: after) w
    = syncExistingEvents cfg clock (before ++ after) w /\
  syncExistingEvents cfg clock (before ++ after) w
    = forEach (reconciled before ++ reconciled after) (queueReminders cfg clock) w.
Proof.
  rewrite !syncExistingEvents_run. unfold reconciled.
  rewrite !omap_app. cbn [omap list_omap]. rewrite !concat_app. split; reflexivity.
Qed.

End Eventer.

Lemma started_event_gets_no_reminder_witness :
  Pending (queueReminders (sampleConfig [24 * Time.Hour; 2 * Time.Hour])
                          (fun _ => 11 * Time.Hour) sampleEvent emptyWorld).2
    = Pending emptyWorld.
Proof.
  apply (started_event_gets_no_reminder
           (sampleConfig [24 * Time.Hour; 2 * Time.Hour])
           (fun _ => 11 * Time.Hour) emptyWorld sampleEvent (11 * Time.Hour)).
  - intros k. reflexivity.
  - repeat constructor; vm_compute; discriminate.
  - vm_compute. discriminate.
Defined.

Lemma repeated_update_changes_nothing_witness :
  let cfg := sampleConfig [2 * Time.Hour] in
  let w1 := (updateRemindersForEvent cfg (fun _ => 0) sampleEvent emptyWorld).2 in
  Pending (updateRemindersForEvent cfg (fun _ => 0) sampleEvent w1).2 = Pending w1.
Proof.
  apply (repeated_update_changes_nothing (sampleConfig [2 * Time.Hour]) (fun _ => 0)
           emptyWorld sampleEvent 0).
  - reflexivity.
  - intros k. reflexivity.
Defined.

Lemma unscheduled_update_keeps_reminders_witness :
  let cancelled :=
    {| ev_ID := "E"; ev_GuildID := "G"; ev_Name := "raid";
       ScheduledStartTime := 10 * Time.Hour;
       ev_Status := GuildScheduledEventStatusCanceled |} in
  let r := immediateReminder sampleEvent in
  let w := {| Pending := [r]; readings := 0; outbox := [] |} in
  let clock := fun _ : nat => 11 * Time.Hour in
  let w1 := (updateRemindersForEvent (sampleConfig []) clock cancelled w).2 in
  let w2 := (reminderWorker_tick (sampleConfig []) clock noFormat w1).2 in
  w1 = w /\ exists req, req ∈ outbox w2 /\ delivers (sampleConfig []) noFormat r req.
Proof.
  apply (unscheduled_update_keeps_reminders (sampleConfig []) (fun _ => 11 * Time.Hour)
           noFormat).
  - vm_compute. discriminate.
  - left.
  - reflexivity.
  - vm_compute. reflexivity.
Defined.

Lemma tick_keeps_or_sends_witness :
  let w := {| Pending := [immediateReminder sampleEvent]; readings := 0; outbox := [] |} in
  let w' := (reminderWorker_tick (sampleConfig []) (fun _ => 0) noFormat w).2 in
  Pending w' = Pending w /\ outbox w' = outbox w.
Proof.
  apply (proj2 (tick_keeps_or_sends (sampleConfig []) (fun _ => 0) noFormat
                  {| Pending := [immediateReminder sampleEvent];
                     readings := 0; outbox := [] |})).
  repeat constructor. vm_compute. discriminate.
Defined.

Lemma queued_reminders_outlive_the_instant_witness :
  let cfg := sampleConfig [2 * Time.Hour] in
  let w1 := (queueReminders cfg (fun _ => 0) sampleEvent emptyWorld).2 in
  let w2 := (reminderWorker_tick cfg (fun _ => 0) noFormat w1).2 in
  Pending w2
    = filter (fun r => ~ RemindAt r < 0) (Pending emptyWorld)
      ++ reminderSet [2 * Time.Hour] 0 sampleEvent.
Proof.
  apply (queued_reminders_outlive_the_instant (sampleConfig [2 * Time.Hour])
           (fun _ => 0) noFormat emptyWorld sampleEvent 0).
  intros k. reflexivity.
Defined.


End ReminderFacts.

(** ** The configuration parsers *)

Module ConfigFacts.
Import ConfigParse ConfigSpec.

Lemma wrap_in_range (z : Z) : Int64.in_range z -> Int64.wrap z = z.
Proof.
  unfold Int64.in_range, Int64.wrap, Int64.min_value, Int64.max_value.
  change (2 ^ 63) with 9223372036854775808.
  change (2 ^ 64) with 18446744073709551616.
  intros H. Z.to_euclidean_division_equations. lia.
Qed.

Lemma wrap_mul_wrap (a b : Z) : Int64.wrap (Int64.wrap a * b) = Int64.wrap (a * b).
Proof.
  unfold Int64.wrap. f_equal.
  replace (((a + 2 ^ 63) mod 2 ^ 64 - 2 ^ 63) * b + 2 ^ 63)
    with ((a + 2 ^ 63) mod 2 ^ 64 * b + (2 ^ 63 - 2 ^ 63 * b)) by ring.
  rewrite Z.add_mod by (intros H; discriminate H).
  rewrite Z.mul_mod_idemp_l by (intros H; discriminate H).
  rewrite <- Z.add_mod by (intros H; discriminate H).
  f_equal. ring.
Qed.

Section Parsers.

Context {lib : Library}.

Lemma parseRconServers_loop_run (servers : list ConfigRconServer) (idx : Z)
    (entries : list string) :
  exists added,
    (parseRconServers_loop servers idx entries).1 = servers ++ added /\
    Forall no_empty_field added /\
    ((parseRconServers_loop servers idx entries).2 = None ->
     length added = length (filter (fun e => TrimSpace e ≠ "") entries)).
Proof.
  revert servers idx. induction entries as [|entry entries IH]; intros servers idx;
    cbn [ConfigParse.parseRconServers_loop].
  - exists []. rewrite app_nil_r. repeat split; constructor.
  - cbv zeta. case_bool_decide as Hempty.
    + destruct (IH servers (idx + 1)) as (added & E & Hfull & Hlen).
      exists added. split; [exact E|]. split; [exact Hfull|].
      intros Hok. rewrite filter_cons_False by tauto. apply Hlen. exact Hok.
    + destruct (Split (TrimSpace entry) comma) as [|p0 [|p1 [|p2 [|]]]];
        try (exists []; rewrite app_nil_r; cbn; repeat split;
             [constructor|discriminate]).
      case_bool_decide as Hfields.
      * exists []. rewrite app_nil_r. cbn. repeat split; [constructor|discriminate].
      * destruct (IH (servers ++ [{| Address := TrimSpace p0; Name := TrimSpace p1;
                                     Password := TrimSpace p2 |}]) (idx + 1))
          as (added & E & Hfull & Hlen).
        eexists (_ :: added). split; [rewrite E, <- app_assoc; reflexivity|].
        split.
        -- constructor; [|exact Hfull]. unfold no_empty_field. cbn in *. tauto.
        -- intros Hok. rewrite filter_cons_True by exact Hempty. cbn.
           f_equal. apply Hlen. exact Hok.
Qed.

(** X25: [parseRconServers] keeps the servers the configuration
    already holds in front and, whether it ends with an error or not,
    appends only servers whose address, name and password are all
    non-empty; without an error it has appended one server for each
    entry that is not blank.  A blank value is an error and changes
    nothing. *)
Theorem parseRconServers_appends_complete_servers
    (servers : list ConfigRconServer) (envValue : string) :
  (exists added,
      (parseRconServers servers envValue).1 = servers ++ added /\
      Forall no_empty_field added /\
      ((parseRconServers servers envValue).2 = None ->
       length added
         = length (filter (fun e => TrimSpace e ≠ "") (Split envValue semicolon)))) /\
  (TrimSpace envValue = "" ->
   parseRconServers servers envValue
     = (servers, Some "RCON_SERVERS env variable is empty")).
Proof.
  unfold ConfigParse.parseRconServers. split.
  - case_bool_decide.
    + exists []. rewrite app_nil_r. cbn. repeat split; [constructor|discriminate].
    + apply parseRconServers_loop_run.
  - intros H. rewrite bool_decide_eq_true_2 by exact H. reflexivity.
Qed.

(** X26: [parseDurationString] returns a zero duration with every
    error.  For a string of a number and a unit word it returns the
    number times the unit reduced to 64 bits -- exactly the product
    whenever that fits a Duration -- and it reports no overflow; a word
    that is no unit is an error. *)
Theorem parseDurationString_amount (s : string) :
  ((parseDurationString s).2 ≠ None -> (parseDurationString s).1 = 0) /\
  (forall number word value,
      Fields (TrimSpace s) = [number; word] -> ParseInt number = inl value ->
      match unit_nanoseconds (ToLower word) with
      | Some unit =>
          parseDurationString s = (Int64.wrap (value * unit), None) /\
          (Int64.in_range (value * unit) -> (parseDurationString s).1 = value * unit)
      | None =>
          parseDurationString s = (0, Some ("invalid unit in duration " +:+ Quote s))
      end).
Proof.
  split.
  - unfold ConfigParse.parseDurationString.
    destruct (Fields (TrimSpace s)) as [|number [|word [|]]]; try reflexivity.
    destruct (ParseInt number) as [value|err]; [|reflexivity].
    repeat case_bool_decide; cbn; congruence.
  - intros number word value HF HP.
    unfold ConfigParse.parseDurationString, unit_nanoseconds. rewrite HF, HP. cbv zeta.
    repeat case_bool_decide; try reflexivity; unfold Int64.mul;
      repeat (rewrite wrap_mul_wrap || rewrite <- Z.mul_assoc);
      (split; [reflexivity|]); intros Hr; cbn [fst]; apply wrap_in_range; exact Hr.
Qed.

Lemma parseDurations_loop_run (res : list Z) (durations : list string) :
  match (parseDurations_loop res durations).2 with
  | None =>
      Forall (fun s => (parseDurationString s).2 = None) durations /\
      (parseDurations_loop res durations).1
        = res ++ ((fun s => (parseDurationString s).1) <$> durations)
  | Some err =>
      exists good bad rest,
        durations = good ++ bad :: rest /\
        Forall (fun s => (parseDurationString s).2 = None) good /\
        (parseDurationString bad).2 = Some err /\
        (parseDurations_loop res durations).1
          = res ++ ((fun s => (parseDurationString s).1) <$> good)
  end.
Proof.
  revert res. induction durations as [|s durations IH]; intros res;
    cbn [ConfigParse.parseDurations_loop].
  - cbn. rewrite app_nil_r. split; [constructor|reflexivity].
  - destruct (parseDurationString s) as [d [err|]] eqn:Es.
    + cbn. exists [], s, durations. rewrite Es, app_nil_r.
      repeat split; constructor.
    + specialize (IH (res ++ [d])).
      destruct (parseDurations_loop (res ++ [d]) durations) as [out [err|]]; cbn in *.
      * destruct IH as (good & bad & rest & -> & Hgood & Hbad & ->).
        exists (s :: good), bad, rest.
        split; [reflexivity|]. split; [constructor; [rewrite Es; reflexivity|exact Hgood]|].
        split; [exact Hbad|]. cbn. rewrite Es, <- app_assoc. reflexivity.
      * destruct IH as [Hall ->]. split.
        -- constructor; [rewrite Es; reflexivity|exact Hall].
        -- cbn. rewrite Es, <- app_assoc. reflexivity.
Qed.

(** X27: [parseDurations] parses the strings in order and stops at
    the first one that fails: without an error it returns one duration
    per string, in the order of the strings; with an error it returns
    the error of the first bad string and the durations of the strings
    before it. *)
Theorem parseDurations_stops_at_first_error (durations : list string) :
  match (parseDurations durations).2 with
  | None =>
      Forall (fun s => (parseDurationString s).2 = None) durations /\
      (parseDurations durations).1 = (fun s => (parseDurationString s).1) <$> durations
  | Some err =>
      exists good bad rest,
        durations = good ++ bad :: rest /\
        Forall (fun s => (parseDurationString s).2 = None) good /\
        (parseDurationString bad).2 = Some err /\
        (parseDurations durations).1 = (fun s => (parseDurationString s).1) <$> good
  end.
Proof.
  unfold ConfigParse.parseDurations.
  pose proof (parseDurations_loop_run [] durations) as H.
  destruct (parseDurations_loop [] durations) as [out [err|]]; cbn in *; exact H.
Qed.

Lemma default_not_empty (s d : string) :
  d ≠ "" -> (if bool_decide (s = "") then d else s) ≠ "".
Proof. intros Hd. case_bool_decide; [exact Hd|assumption]. Qed.

Lemma parseDurations_some (raw : list string) (o : list Z) :
  raw ≠ [] -> parseDurations raw = (o, None) -> o ≠ [].
Proof.
  intros Hraw Hp. pose proof (parseDurations_loop_run [] raw) as H.
  unfold ConfigParse.parseDurations in Hp. rewrite Hp in H. cbn in H.
  destruct H as [_ ->]. destruct raw; [congruence|discriminate].
Qed.

Lemma ParseConfig_accepted (c : Config) :
  Servers (Rcon c) ≠ [] ->
  BotToken (Discord c) ≠ "" ->
  ChannelIDStatus (Discord c) ≠ "" ->
  ChannelIDJoinLeave (Discord c) ≠ "" ->
  Tag (Discord c) ≠ "" ->
  CachePath (Discord c) ≠ "" ->
  QueryEverySeconds (Rcon c) ≠ 0 ->
  LogFile c ≠ "" ->
  ReminderOffsets (Eventer (Discord c)) ≠ [] ->
  (Enabled (Eventer (Discord c)) = true -> ChannelIDJoinEvents (Discord c) ≠ "-") ->
  ParseConfig c = Some c.
Proof.
  destruct c as [[servers every] [status joinLeave joinEvents token tag cache show pin
                                    [enabled offsets raw]] logFile].
  cbn. intros Hs Ht Hc Hjl Htag Hcache Hq Hlog Hoff He.
  unfold ConfigParse.ParseConfig. cbn.
  rewrite (bool_decide_eq_false_2 _ Hs), (bool_decide_eq_false_2 _ Ht),
    (bool_decide_eq_false_2 _ Hc), (bool_decide_eq_false_2 _ Hjl),
    (bool_decide_eq_false_2 _ Htag), (bool_decide_eq_false_2 _ Hcache),
    (bool_decide_eq_false_2 _ Hlog).
  destruct (Z.eqb_spec every 0) as [E0|_]; [tauto|].
  destruct offsets as [|o os]; [congruence|].
  destruct enabled; [|rewrite andb_false_r; reflexivity].
  rewrite (bool_decide_eq_false_2 _ (He eq_refl)). reflexivity.
Qed.

(** X28: a configuration that [ParseConfig] lets through has at least
    one server, a bot token, a status channel, a join/leave channel, a
    tag, a cache path, a polling interval other than zero, a log target
    and at least one reminder offset, and an enabled eventer comes with
    an events channel other than "-"; the defaults are filled in once:
    parsing such a configuration again returns it unchanged. *)
Theorem ParseConfig_fills_defaults (res c : Config) :
  ParseConfig res = Some c ->
  Servers (Rcon c) ≠ [] /\
  BotToken (Discord c) ≠ "" /\
  ChannelIDStatus (Discord c) ≠ "" /\
  ChannelIDJoinLeave (Discord c) ≠ "" /\
  Tag (Discord c) ≠ "" /\
  CachePath (Discord c) ≠ "" /\
  QueryEverySeconds (Rcon c) ≠ 0 /\
  LogFile c ≠ "" /\
  ReminderOffsets (Eventer (Discord c)) ≠ [] /\
  (Enabled (Eventer (Discord c)) = true -> ChannelIDJoinEvents (Discord c) ≠ "-") /\
  ParseConfig c = Some c.
Proof.
  unfold ConfigParse.ParseConfig at 1.
  case_bool_decide as Hs; [discriminate|].
  case_bool_decide as Ht; [discriminate|].
  case_bool_decide as Hc; [discriminate|]. cbv zeta.
  destruct (match ReminderOffsets (Eventer (Discord res)) with
            | [] => _
            | _ :: _ => _
            end) as [offsets|] eqn:Eo; [|discriminate].
  destruct (bool_decide (ChannelIDJoinEvents (Discord res) = "-")
            && Enabled (Eventer (Discord res))) eqn:Ee; [discriminate|].
  intros [= <-]. cbn.
  assert (offsets ≠ []) as Hoff.
  { destruct (ReminderOffsets (Eventer (Discord res))) as [|o os].
    - destruct (ReminderOffsetsRaw (Eventer (Discord res))) as [|r rs] eqn:Er.
      + injection Eo as <-. discriminate.
      + destruct (parseDurations (r :: rs)) as [out [err|]] eqn:Ep;
          [discriminate|].
        injection Eo as <-. eapply parseDurations_some; [|exact Ep]. discriminate.
    - injection Eo as <-. discriminate. }
  pose proof (default_not_empty (ChannelIDJoinLeave (Discord res)) _ Hc) as Hjl.
  pose proof (default_not_empty (Tag (Discord res)) "lazydodobot" ltac:(discriminate))
    as Htag.
  pose proof (default_not_empty (CachePath (Discord res)) "cache.txt" ltac:(discriminate))
    as Hcache.
  pose proof (default_not_empty (LogFile res) "-" ltac:(discriminate)) as Hlog.
  assert ((if QueryEverySeconds (Rcon res) =? 0 then 60 else QueryEverySeconds (Rcon res))
          ≠ 0) as Hq by (destruct (Z.eqb_spec (QueryEverySeconds (Rcon res)) 0); lia).
  repeat split; try assumption.
  - intros He. rewrite He, andb_true_r in Ee. apply bool_decide_eq_false_1 in Ee. exact Ee.
  - apply ParseConfig_accepted; cbn; try assumption.
    intros He. rewrite He, andb_true_r in Ee. apply bool_decide_eq_false_1 in Ee. exact Ee.
Qed.

End Parsers.

Lemma parseDurationString_amount_witness :
  (parseDurationString (lib := sampleLibrary) "2 hours").1 = 2 * Time.Hour.
Proof.
  destruct (parseDurationString_amount (lib := sampleLibrary) "2 hours")
    as [_ H].
  specialize (H "2" "hours" 2 eq_refl eq_refl).
  change (unit_nanoseconds (ToLower "hours")) with (Some Time.Hour) in H.
  apply H. vm_compute. split; discriminate.
Defined.

Lemma parseDurations_stops_at_first_error_witness :
  (parseDurations (lib := sampleLibrary) ["2 hours"; "15 minutes"]).1
    = [2 * Time.Hour; 15 * Time.Minute] /\
  exists good bad rest,
    ["2 hours"; "soon"; "15 minutes"] = good ++ bad :: rest /\
    (parseDurations (lib := sampleLibrary) ["2 hours"; "soon"; "15 minutes"]).1
      = (fun s => (parseDurationString (lib := sampleLibrary) s).1) <$> good.
Proof.
  split.
  - pose proof (parseDurations_stops_at_first_error (lib := sampleLibrary)
                  ["2 hours"; "15 minutes"]) as H.
    assert ((parseDurations (lib := sampleLibrary)
               ["2 hours"; "15 minutes"]).2 = None) as E by (vm_compute; reflexivity).
    rewrite E in H. destruct H as [_ ->]. vm_compute. reflexivity.
  - pose proof (parseDurations_stops_at_first_error (lib := sampleLibrary)
                  ["2 hours"; "soon"; "15 minutes"]) as H.
    assert ((parseDurations (lib := sampleLibrary)
               ["2 hours"; "soon"; "15 minutes"]).2
            = Some "invalid duration format: soon") as E by (vm_compute; reflexivity).
    rewrite E in H. destruct H as (good & bad & rest & E1 & _ & _ & E2).
    exists good, bad, rest. split; [exact E1|exact E2].
Defined.

Lemma parseRconServers_appends_complete_servers_witness :
  exists added,
    (parseRconServers (lib := sampleLibrary) []
                      "10.0.0.1:27015,Main,x;;10.0.0.2:27015,Backup,y").1
      = [] ++ added /\
    Forall no_empty_field added /\ length added = 2%nat.
Proof.
  destruct (proj1 (parseRconServers_appends_complete_servers (lib := sampleLibrary) []
                     "10.0.0.1:27015,Main,x;;10.0.0.2:27015,Backup,y"))
    as (added & E & Hfull & Hlen).
  exists added. split; [exact E|]. split; [exact Hfull|].
  rewrite Hlen by (vm_compute; reflexivity). vm_compute. reflexivity.
Defined.

Lemma ParseConfig_fills_defaults_witness :
  exists c,
    ParseConfig (lib := sampleLibrary) sampleConfigFile = Some c /\
    Tag (Discord c) ≠ "" /\
    ReminderOffsets (Eventer (Discord c)) ≠ [] /\
    ParseConfig (lib := sampleLibrary) c = Some c.
Proof.
  pose proof (ParseConfig_fills_defaults (lib := sampleLibrary)
                sampleConfigFile) as H.
  destruct (ParseConfig (lib := sampleLibrary) sampleConfigFile)
    as [c|] eqn:E; [|vm_compute in E; discriminate E].
  exists c. specialize (H c eq_refl). split; [reflexivity|]. tauto.
Defined.

End ConfigFacts.
